(** * Galaxy: visualizations service, chat API, RBAC association setters,
      vault, and the quota-source-labels migration.

    A shallow embedding of the service-layer code of the repository and
    the properties its specification states about it.  Each Python module
    is embedded in a Rocq [Module] of its own; database sessions are
    explicit state, exceptions are the left summand of a result. *)

From stdpp Require Import gmap strings list fin_maps pretty.

Local Open Scope string_scope.
Local Open Scope list_scope.
Local Open Scope Z_scope.

(** ** Python values shared by the embedded modules *)

(** Python truthiness ([bool(x)]), the test behind [a or b], [if x:] and
    [not x]. *)
Class Truthy (A : Type) := truthy : A → bool.

(** [None] and the empty string are falsy, any other string is truthy. *)
#[global] Instance truthy_str : Truthy (option string) := λ s,
  match s with
  | Some s => negb (String.eqb s "")
  | None => false
  end.

(** [None] and [False] are falsy. *)
#[global] Instance truthy_bool : Truthy (option bool) := λ b,
  match b with
  | Some b => b
  | None => false
  end.

(** [None] and [0] are falsy integers. *)
#[global] Instance truthy_int : Truthy (option Z) := λ n,
  match n with
  | Some n => negb (n =? 0)
  | None => false
  end.

(** [a or b]: [a] when it is truthy, otherwise [b]. *)
Definition py_or {A} `{Truthy A} (a b : A) : A := if truthy a then a else b.

(** [str(x)] of an optional string, as an f-string renders it. *)
Definition py_str (s : option string) : string :=
  match s with
  | Some s => s
  | None => "None"
  end.

(** The exceptions of [galaxy.exceptions] (and of the Python built-ins,
    the cryptography library and the database layer) that the embedded
    code raises, each with its message. *)
Inductive Exn : Type :=
| ObjectNotFound (msg : string)
| ItemAccessibilityException (msg : string)
| ItemDeletionException (msg : string)
| ItemOwnershipException (msg : string)
| RequestParameterInvalidException (msg : string)
| ConfigurationError (msg : string)
| AttributeError (msg : string)
| IndexError (msg : string)
| InvalidToken
| OperationalError (msg : string)
| IntegrityError (msg : string).

#[global] Instance Exn_eq_dec : EqDecision Exn.
Proof. solve_decision. Defined.

(** A computation over a mutable store [S] that may raise: the store is
    threaded through an exception too, as Python leaves in place whatever
    was mutated before the [raise]. *)
Definition M (S A : Type) : Type := S → (Exn + A) * S.

Definition ret {S A} (a : A) : M S A := λ s, (inr a, s).
Definition raise {S A} (e : Exn) : M S A := λ s, (inl e, s).
Definition bind {S A B} (m : M S A) (k : A → M S B) : M S B := λ s,
  match m s with
  | (inr a, s') => k a s'
  | (inl e, s') => (inl e, s')
  end.
Definition get_state {S} : M S S := λ s, (inr s, s).
Definition put_state {S} (s : S) : M S unit := λ _, (inr tt, s).
Definition modify_state {S} (f : S → S) : M S unit := λ s, (inr tt, f s).

Declare Scope py_scope.
Delimit Scope py_scope with py.
Notation "x <- c ;; k" := (bind c (λ x, k))
  (at level 100, c at next level, right associativity) : py_scope.
Notation "c ;;; k" := (bind c (λ _, k))
  (at level 100, right associativity) : py_scope.

(** Lookups of literal names in a map built by inserting and deleting
    literal names. *)
Ltac lookup_names :=
  repeat first
    [ rewrite lookup_insert_eq
    | rewrite lookup_delete_eq
    | rewrite lookup_insert_ne by discriminate
    | rewrite lookup_delete_ne by discriminate ].

(** ** lib/galaxy/webapps/galaxy/services/visualizations.py *)

Module Visualizations.

(** A JSON document; a Python [dict] keeps its keys in insertion order,
    so a [JDict] is an association list. *)
#[warnings="-register-all"] Inductive Json : Type :=
| JNull
| JBool (b : bool)
| JInt (n : Z)
| JStr (s : string)
| JList (l : list Json)
| JDict (d : list (string * Json)).

(** The [config] blob of a revision: a dictionary, its keys in the order
    [json.dumps] writes them. *)
Definition Config : Type := list (string * Json).

(** [c1 == c2] on two dictionaries with the same values under the same
    keys, whatever the order of the keys. *)
Definition same_dict (c1 c2 : Config) : Prop :=
  (list_to_map c1 : gmap string Json) = list_to_map c2.

(** [c1 == c2] on two configs ([None] or a dictionary). *)
Definition same_config (c1 c2 : option Config) : Prop :=
  match c1, c2 with
  | Some d1, Some d2 => same_dict d1 d2
  | None, None => True
  | _, _ => False
  end.

(** An empty [dict] (and [None]) is falsy. *)
#[global] Instance truthy_config : Truthy (option Config) := λ c,
  match c with
  | Some (_ :: _) => true
  | _ => false
  end.

Record User := {
  user_id : Z;
  username : string;
  email : string;
}.

(** [galaxy.model.VisualizationRevision]: one immutable snapshot. *)
Record VisualizationRevision := {
  rev_id : Z;
  rev_visualization_id : Z;
  rev_title : option string;
  rev_dbkey : option string;
  rev_config : option Config;
}.

(** [galaxy.model.Visualization]; [latest_revision] and [revisions] are
    the two relationships to its revisions. *)
Record Visualization := {
  vis_id : Z;
  vis_user : User;
  vis_title : option string;
  vis_type : option string;
  vis_dbkey : option string;
  vis_slug : option string;
  vis_deleted : option bool;
  vis_importable : option bool;
  latest_revision : option VisualizationRevision;
  revisions : list VisualizationRevision;
}.

(** [VisualizationUpdatePayload]: every field is optional. *)
Record VisualizationUpdatePayload := {
  p_title : option string;
  p_dbkey : option string;
  p_deleted : option bool;
  p_config : option Config;
}.

(** [VisualizationUpdateResponse(id=..., revision=...)]. *)
Record VisualizationUpdateResponse := {
  resp_id : Z;
  resp_revision : Z;
}.

(** [trans]: the request context. *)
Record Trans := {
  trans_user : option User;
  user_is_admin : bool;
}.

(** [trans.sa_session]: the visualizations it holds, by id, and the next
    primary keys the database hands out. *)
Record Session := {
  visualization_table : gmap Z Visualization;
  next_visualization_id : Z;
  next_revision_id : Z;
}.

Definition set_title (title : option string) (v : Visualization) : Visualization :=
  {| vis_id := vis_id v; vis_user := vis_user v; vis_title := title;
     vis_type := vis_type v; vis_dbkey := vis_dbkey v; vis_slug := vis_slug v;
     vis_deleted := vis_deleted v; vis_importable := vis_importable v;
     latest_revision := latest_revision v; revisions := revisions v |}.

Definition set_deleted (deleted : option bool) (v : Visualization) : Visualization :=
  {| vis_id := vis_id v; vis_user := vis_user v; vis_title := vis_title v;
     vis_type := vis_type v; vis_dbkey := vis_dbkey v; vis_slug := vis_slug v;
     vis_deleted := deleted; vis_importable := vis_importable v;
     latest_revision := latest_revision v; revisions := revisions v |}.

(** [VisualizationRevision(visualization=v, ...)] followed by
    [v.latest_revision = revision]: the relationship appends the new
    revision to [v.revisions]. *)
Definition set_latest_revision (r : VisualizationRevision) (v : Visualization)
  : Visualization :=
  {| vis_id := vis_id v; vis_user := vis_user v; vis_title := vis_title v;
     vis_type := vis_type v; vis_dbkey := vis_dbkey v; vis_slug := vis_slug v;
     vis_deleted := vis_deleted v; vis_importable := vis_importable v;
     latest_revision := Some r; revisions := revisions v ++ [r] |}.

(** Write a (mutated) visualization object back into the session. *)
Definition store_visualization (v : Visualization) (s : Session) : Session :=
  {| visualization_table := <[vis_id v := v]> (visualization_table s);
     next_visualization_id := next_visualization_id s;
     next_revision_id := next_revision_id s |}.

Definition bump_revision_id (s : Session) : Session :=
  {| visualization_table := visualization_table s;
     next_visualization_id := next_visualization_id s;
     next_revision_id := next_revision_id s + 1 |}.

Definition bump_visualization_id (s : Session) : Session :=
  {| visualization_table := visualization_table s;
     next_visualization_id := next_visualization_id s + 1;
     next_revision_id := next_revision_id s |}.

(** A payload with one field replaced. *)
Definition with_title (t : option string) (p : VisualizationUpdatePayload) :=
  {| p_title := t; p_dbkey := p_dbkey p; p_deleted := p_deleted p; p_config := p_config p |}.
Definition with_dbkey (k : option string) (p : VisualizationUpdatePayload) :=
  {| p_title := p_title p; p_dbkey := k; p_deleted := p_deleted p; p_config := p_config p |}.
Definition with_deleted (d : option bool) (p : VisualizationUpdatePayload) :=
  {| p_title := p_title p; p_dbkey := p_dbkey p; p_deleted := d; p_config := p_config p |}.
Definition with_config (c : option Config) (p : VisualizationUpdatePayload) :=
  {| p_title := p_title p; p_dbkey := p_dbkey p; p_deleted := p_deleted p; p_config := c |}.

Section Service.
Local Open Scope py_scope.

(** [galaxy.util.sanitize_html.sanitize_html], not part of this
    service. *)
Variable sanitize_html : string → string.

(** [json.dumps] of a config ([None] or a dictionary). *)
Variable json_dumps : option Config → string.

(** [galaxy.managers.base.security_check(trans, item, check_ownership,
    check_accessible)]: raises, or hands back the item it was given;
    [None] stands for the latter. *)
Variable security_check : Trans → Visualization → bool → bool → option Exn.

(** [Visualization.copy(user=..., title=...)] of [galaxy.model]. *)
Variable visualization_copy : Visualization → User → string → Visualization.

(** [_validate_and_parse_payload] on an update payload.  [None] fields
    are skipped; [title] and [dbkey] are sanitized; [deleted] and
    [config] are kept.  The [isinstance] guards cannot fail on the typed
    payload, so no [RequestParameterInvalidException] is raised here. *)
Definition _validate_and_parse_payload (payload : VisualizationUpdatePayload)
  : VisualizationUpdatePayload :=
  {| p_title := sanitize_html <$> p_title payload;
     p_dbkey := sanitize_html <$> p_dbkey payload;
     p_deleted := p_deleted payload;
     p_config := p_config payload |}.

(** [_get_visualization]. *)
Definition _get_visualization (trans : Trans) (visualization_id : Z)
    (check_ownership check_accessible : bool) : M Session Visualization :=
  s <- get_state ;;
  match visualization_table s !! visualization_id with
  | None => raise (ObjectNotFound "Visualization not found")
  | Some visualization =>
      match security_check trans visualization check_ownership check_accessible with
      | Some e => raise e
      | None => ret visualization
      end
  end.

(** [_add_visualization_revision]: build the revision, repoint
    [latest_revision], add and commit. *)
Definition _add_visualization_revision (visualization : Visualization)
    (config : option Config) (title dbkey : option string)
  : M Session (VisualizationRevision * Visualization) :=
  s <- get_state ;;
  let revision :=
    {| rev_id := next_revision_id s;
       rev_visualization_id := vis_id visualization;
       rev_title := title; rev_dbkey := dbkey; rev_config := config |} in
  let visualization := set_latest_revision revision visualization in
  modify_state (λ s, store_visualization visualization (bump_revision_id s)) ;;;
  ret (revision, visualization).

(** [visualization.latest_revision.<attr>]: an [AttributeError] when the
    visualization has no latest revision. *)
Definition latest_revision_of (visualization : Visualization)
  : M Session VisualizationRevision :=
  match latest_revision visualization with
  | Some r => ret r
  | None => raise (AttributeError "'NoneType' object has no attribute 'title'")
  end.

(** The test of [update] that decides whether a new revision is made. *)
Definition content_changed (title dbkey : option string) (config : option Config)
    (latest : VisualizationRevision) : bool :=
  bool_decide (title ≠ rev_title latest)
  || bool_decide (dbkey ≠ rev_dbkey latest)
  || bool_decide (json_dumps config ≠ json_dumps (rev_config latest)).

(** [update]. *)
Definition update (trans : Trans) (visualization_id : Z)
    (payload : VisualizationUpdatePayload)
  : M Session (option VisualizationUpdateResponse) :=
  let payload := _validate_and_parse_payload payload in
  visualization <- _get_visualization trans visualization_id true false ;;
  latest <- latest_revision_of visualization ;;
  let title := py_or (p_title payload) (rev_title latest) in
  let dbkey := py_or (p_dbkey payload) (rev_dbkey latest) in
  let deleted := py_or (p_deleted payload) (vis_deleted visualization) in
  let config := py_or (p_config payload) (rev_config latest) in
  rv <- (if content_changed title dbkey config latest
         then rv <- _add_visualization_revision visualization config title dbkey ;;
              ret (Some {| resp_id := visualization_id;
                           resp_revision := rev_id (fst rv) |}, snd rv)
         else ret (None, visualization)) ;;
  let visualization := set_deleted deleted (set_title title (snd rv)) in
  modify_state (store_visualization visualization) ;;;
  ret (fst rv).

(** [_import_visualization].  The commit gives the copy its primary key;
    the revisions that come with the copy are those [Visualization.copy]
    hands over, which this service does not look at. *)
Definition _import_visualization (trans : Trans) (visualization_id : Z)
  : M Session Visualization :=
  match trans_user trans with
  | None =>
      raise (ItemAccessibilityException
               "You must be logged in to import Galaxy visualizations")
  | Some user =>
      visualization <- _get_visualization trans visualization_id false false ;;
      if negb (truthy (vis_importable visualization)) then
        raise (ItemAccessibilityException
                 "The owner of this visualization has disabled imports via this link.")
      else if truthy (vis_deleted visualization) then
        raise (ItemDeletionException
                 "You can't import this visualization because it has been deleted.")
      else
        let imported_visualization :=
          visualization_copy visualization user
            ("imported: " +:+ py_str (vis_title visualization)) in
        s <- get_state ;;
        let imported_visualization :=
          {| vis_id := next_visualization_id s;
             vis_user := vis_user imported_visualization;
             vis_title := vis_title imported_visualization;
             vis_type := vis_type imported_visualization;
             vis_dbkey := vis_dbkey imported_visualization;
             vis_slug := vis_slug imported_visualization;
             vis_deleted := vis_deleted imported_visualization;
             vis_importable := vis_importable imported_visualization;
             latest_revision := latest_revision imported_visualization;
             revisions := revisions imported_visualization |} in
        put_state (store_visualization imported_visualization (bump_visualization_id s)) ;;;
        ret imported_visualization
  end.

End Service.

(** *** Concrete instances, used to run the service on examples *)

(** What [security_check] does for the ownership test: administrators
    pass; otherwise the caller must be logged in and be the item's user. *)
Definition owner_security_check (trans : Trans) (item : Visualization)
    (check_ownership check_accessible : bool) : option Exn :=
  if user_is_admin trans then None
  else if check_ownership then
    match trans_user trans with
    | None => Some (ItemOwnershipException "Must be logged in to manage Galaxy items")
    | Some u =>
        if bool_decide (user_id u = user_id (vis_user item)) then None
        else Some (ItemOwnershipException "Visualization is not owned by the current user")
    end
  else None.

(** The double-quote and the backslash characters, as strings. *)
Definition dquote : string := String (Ascii.ascii_of_nat 34) "".
Definition backslash : string := String (Ascii.ascii_of_nat 92) "".

(** One hexadecimal digit, in lower case. *)
Definition hex_digit (n : N) : string :=
  String.substring (N.to_nat n) 1 "0123456789abcdef".

(** What [json.dumps] (with its default [ensure_ascii=True]) writes for
    one character of a string: the quote and the backslash are escaped,
    the control characters have their short or their [\u00xx] form, and
    so has every character outside the printable ASCII range.  A
    character is a code point below 256. *)
Definition escape_char (c : Ascii.ascii) : string :=
  let n := Ascii.N_of_ascii c in
  if (n =? 34)%N then backslash +:+ dquote
  else if (n =? 92)%N then backslash +:+ backslash
  else if (n =? 8)%N then backslash +:+ "b"
  else if (n =? 12)%N then backslash +:+ "f"
  else if (n =? 10)%N then backslash +:+ "n"
  else if (n =? 13)%N then backslash +:+ "r"
  else if (n =? 9)%N then backslash +:+ "t"
  else if ((n <? 32) || (126 <? n))%N then
    backslash +:+ "u00" +:+ hex_digit (n / 16) +:+ hex_digit (n mod 16)
  else String c "".

Fixpoint escape (s : string) : string :=
  match s with
  | EmptyString => ""
  | String c s' => escape_char c +:+ escape s'
  end.

(** A string literal of [json.dumps]. *)
Definition dumps_str (s : string) : string := dquote +:+ escape s +:+ dquote.

(** [json.dumps] with its default separators, on the documents of
    [Json]. *)
Fixpoint dumps (j : Json) : string :=
  match j with
  | JNull => "null"
  | JBool true => "true"
  | JBool false => "false"
  | JInt n => pretty n
  | JStr s => dumps_str s
  | JList l =>
      "[" +:+
      (fix items (l : list Json) : string :=
         match l with
         | [] => ""
         | [x] => dumps x
         | x :: l' => dumps x +:+ ", " +:+ items l'
         end) l +:+ "]"
  | JDict d =>
      "{" +:+
      (fix items (d : list (string * Json)) : string :=
         match d with
         | [] => ""
         | [(k, x)] => dumps_str k +:+ ": " +:+ dumps x
         | (k, x) :: d' => dumps_str k +:+ ": " +:+ dumps x +:+ ", " +:+ items d'
         end) d +:+ "}"
  end.

Definition dumps_config (c : option Config) : string :=
  match c with
  | None => "null"
  | Some d => dumps (JDict d)
  end.

Definition plain_copy (v : Visualization) (user : User) (title : string) : Visualization :=
  {| vis_id := 0; vis_user := user; vis_title := Some title;
     vis_type := vis_type v; vis_dbkey := vis_dbkey v; vis_slug := None;
     vis_deleted := Some false; vis_importable := Some false;
     latest_revision := latest_revision v; revisions := [] |}.

Definition alice : User := {| user_id := 1; username := "alice"; email := "alice@example.org" |}.
Definition bob : User := {| user_id := 2; username := "bob"; email := "bob@example.org" |}.

Definition rev1 : VisualizationRevision :=
  {| rev_id := 1; rev_visualization_id := 7; rev_title := Some "plot";
     rev_dbkey := Some "hg19"; rev_config := Some [("x", JInt 1)] |}.

(** Alice's visualization 7: importable, not deleted. *)
Definition vis7 : Visualization :=
  {| vis_id := 7; vis_user := alice; vis_title := Some "plot"; vis_type := Some "scatter";
     vis_dbkey := Some "hg19"; vis_slug := Some "plot"; vis_deleted := Some false;
     vis_importable := Some true; latest_revision := Some rev1; revisions := [rev1] |}.

Definition rev2 : VisualizationRevision :=
  {| rev_id := 2; rev_visualization_id := 8; rev_title := Some "old";
     rev_dbkey := None; rev_config := None |}.

(** Alice's visualization 8: deleted, and not importable. *)
Definition vis8 : Visualization :=
  {| vis_id := 8; vis_user := alice; vis_title := Some "old"; vis_type := Some "scatter";
     vis_dbkey := None; vis_slug := Some "old"; vis_deleted := Some true;
     vis_importable := Some false; latest_revision := Some rev2; revisions := [rev2] |}.

(** Alice's visualization 9: deleted, but importable. *)
Definition vis9 : Visualization :=
  {| vis_id := 9; vis_user := alice; vis_title := Some "old"; vis_type := Some "scatter";
     vis_dbkey := None; vis_slug := Some "older"; vis_deleted := Some true;
     vis_importable := Some true; latest_revision := None; revisions := [] |}.

Definition session0 : Session :=
  {| visualization_table := <[7 := vis7]> (<[8 := vis8]> (<[9 := vis9]> ∅));
     next_visualization_id := 10; next_revision_id := 3 |}.

Definition rev3 : VisualizationRevision :=
  {| rev_id := 3; rev_visualization_id := 10; rev_title := Some "plot";
     rev_dbkey := Some "hg19"; rev_config := Some [("x", JInt 1)] |}.

(** Bob's visualization 10, an imported copy of visualization 7: its own
    title is the one the import gave it, its revision has the title of
    the revision it was copied from. *)
Definition vis10 : Visualization :=
  {| vis_id := 10; vis_user := bob; vis_title := Some "imported: plot";
     vis_type := Some "scatter"; vis_dbkey := Some "hg19"; vis_slug := None;
     vis_deleted := Some false; vis_importable := Some false;
     latest_revision := Some rev3; revisions := [rev3] |}.

Definition rev4 : VisualizationRevision :=
  {| rev_id := 4; rev_visualization_id := 11; rev_title := Some "tracks";
     rev_dbkey := Some "hg38"; rev_config := Some [("a", JInt 2); ("b", JInt 1)] |}.

(** Alice's visualization 11, with a config of two keys. *)
Definition vis11 : Visualization :=
  {| vis_id := 11; vis_user := alice; vis_title := Some "tracks";
     vis_type := Some "trackster"; vis_dbkey := Some "hg38"; vis_slug := Some "tracks";
     vis_deleted := Some false; vis_importable := Some false;
     latest_revision := Some rev4; revisions := [rev4] |}.

Definition session1 : Session :=
  {| visualization_table := <[10 := vis10]> (<[11 := vis11]> (visualization_table session0));
     next_visualization_id := 12; next_revision_id := 5 |}.

Definition as_alice : Trans := {| trans_user := Some alice; user_is_admin := false |}.
Definition as_bob : Trans := {| trans_user := Some bob; user_is_admin := false |}.
Definition anonymous : Trans := {| trans_user := None; user_is_admin := false |}.

Definition payload_none : VisualizationUpdatePayload :=
  {| p_title := None; p_dbkey := None; p_deleted := None; p_config := None |}.

(** The config of visualization 11, its two keys in the other order. *)
Definition payload_reordered : VisualizationUpdatePayload :=
  with_config (Some [("b", JInt 1); ("a", JInt 2)]) payload_none.

End Visualizations.

(** ** galaxy.model.security: the RBAC association setters

    [GalaxyRBACAgent] is exercised by test/unit/data/model/db/test_security.py
    but its code is not among the sources; it is modelled here from the
    specification (sections 3 and 4.1) and from what the tests observe. *)

Module Security.

(** Modelled from the spec: the types of a [Role] ("types: PRIVATE, etc."). *)
Inductive RoleType : Type := PRIVATE | SYSTEM | USER | ADMIN | SHARING.

#[global] Instance RoleType_eq_dec : EqDecision RoleType.
Proof. solve_decision. Defined.

Record User := { email : string }.
Record Group := { group_name : string }.
Record Role := { name : string; type : RoleType }.

(** Modelled from the spec: the entities [User], [Group], [Role] and
    "their many-to-many association tables" of section 3.  An association
    table is a set of id pairs. *)
Record Database := {
  galaxy_user : gmap Z User;
  galaxy_group : gmap Z Group;
  role : gmap Z Role;
  user_role_association : gset (Z * Z);   (* (user_id, role_id) *)
  user_group_association : gset (Z * Z);  (* (user_id, group_id) *)
  group_role_association : gset (Z * Z);  (* (group_id, role_id) *)
}.

Inductive AssocTable : Type :=
| UserRoleAssociation | UserGroupAssociation | GroupRoleAssociation.

Inductive Entity : Type := EUser | EGroup | ERole.

(** Which column of an association row holds the anchor. *)
Inductive Side : Type := AnchorFirst | AnchorSecond.

Definition rows (t : AssocTable) (db : Database) : gset (Z * Z) :=
  match t with
  | UserRoleAssociation => user_role_association db
  | UserGroupAssociation => user_group_association db
  | GroupRoleAssociation => group_role_association db
  end.

Definition set_rows (t : AssocTable) (r : gset (Z * Z)) (db : Database) : Database :=
  match t with
  | UserRoleAssociation =>
      {| galaxy_user := galaxy_user db; galaxy_group := galaxy_group db; role := role db;
         user_role_association := r;
         user_group_association := user_group_association db;
         group_role_association := group_role_association db |}
  | UserGroupAssociation =>
      {| galaxy_user := galaxy_user db; galaxy_group := galaxy_group db; role := role db;
         user_role_association := user_role_association db;
         user_group_association := r;
         group_role_association := group_role_association db |}
  | GroupRoleAssociation =>
      {| galaxy_user := galaxy_user db; galaxy_group := galaxy_group db; role := role db;
         user_role_association := user_role_association db;
         user_group_association := user_group_association db;
         group_role_association := r |}
  end.

Definition mk_row (sd : Side) (anchor target : Z) : Z * Z :=
  match sd with
  | AnchorFirst => (anchor, target)
  | AnchorSecond => (target, anchor)
  end.

Definition anchor_of (sd : Side) (p : Z * Z) : Z :=
  match sd with AnchorFirst => p.1 | AnchorSecond => p.2 end.

Definition target_of (sd : Side) (p : Z * Z) : Z :=
  match sd with AnchorFirst => p.2 | AnchorSecond => p.1 end.

(** The entity a target id of table [t] must name, for an anchor on [sd]. *)
Definition target_entity (t : AssocTable) (sd : Side) : Entity :=
  match t, sd with
  | UserRoleAssociation, AnchorFirst => ERole
  | UserRoleAssociation, AnchorSecond => EUser
  | UserGroupAssociation, AnchorFirst => EGroup
  | UserGroupAssociation, AnchorSecond => EUser
  | GroupRoleAssociation, AnchorFirst => ERole
  | GroupRoleAssociation, AnchorSecond => EGroup
  end.

Definition entity_exists (e : Entity) (db : Database) (id : Z) : bool :=
  match e with
  | EUser => bool_decide (is_Some (galaxy_user db !! id))
  | EGroup => bool_decide (is_Some (galaxy_group db !! id))
  | ERole => bool_decide (is_Some (role db !! id))
  end.

Definition is_private (db : Database) (role_id : Z) : bool :=
  match role db !! role_id with
  | Some r => bool_decide (type r = PRIVATE)
  | None => false
  end.

(** Modelled from the spec: the protected subset that a replacement
    leaves unaffected, "the user's private role": a user-role association
    whose role has type PRIVATE.  The role's name and the user's email are
    not consulted. *)
Definition protected (t : AssocTable) (db : Database) (p : Z * Z) : bool :=
  match t with
  | UserRoleAssociation => is_private db p.2
  | _ => false
  end.

(** Modelled from the spec: a row of table [t] survives the replacement
    of [anchor]'s associations by [ids] when it is another anchor's, when
    its target is listed, or when it is protected. *)
Definition kept (t : AssocTable) (sd : Side) (db : Database) (anchor : Z)
    (ids : list Z) (p : Z * Z) : bool :=
  negb (bool_decide (anchor_of sd p = anchor))
  || bool_decide (target_of sd p ∈ ids)
  || protected t db p.

(** Modelled from the spec: the listed ids whose association a
    replacement may create.  An association with a PRIVATE role is not
    among them: "every User has exactly one PRIVATE Role ...; this
    association must never be altered by bulk association-replacement
    operations" (section 3), so none is dropped and none is created. *)
Definition creatable (t : AssocTable) (sd : Side) (db : Database) (anchor : Z)
    (ids : list Z) : list Z :=
  filter (λ id, protected t db (mk_row sd anchor id) = false) ids.

Arguments creatable : simpl never.

Section Setters.
Local Open Scope py_scope.

(** Modelled from the spec: "drops associations not in the new lists". *)
Definition drop_associations (t : AssocTable) (sd : Side) (anchor : Z) (ids : list Z)
  : M Database unit :=
  modify_state (λ db,
    set_rows t (filter (λ p, kept t sd db anchor ids p = true) (rows t db)) db).

(** Modelled from the spec: "adds associations not already present",
    one listed id after the other; an id seen before in the list, or one
    that names no entity, raises the parameter-validation error with the
    earlier insertions still in the session.  A listed id that passes
    these checks and whose association would be a protected one is passed
    over. *)
Fixpoint insert_associations (t : AssocTable) (sd : Side) (anchor : Z)
    (seen ids : list Z) : M Database unit :=
  match ids with
  | [] => ret tt
  | id :: ids' =>
      db <- get_state ;;
      if bool_decide (id ∈ seen) then
        raise (RequestParameterInvalidException
                 "Attempting to create a duplicate association record")
      else if negb (entity_exists (target_entity t sd) db id) then
        raise (RequestParameterInvalidException
                 "Attempting to create an invalid association record")
      else if protected t db (mk_row sd anchor id) then
        insert_associations t sd anchor (id :: seen) ids'
      else
        put_state (set_rows t ({[mk_row sd anchor id]} ∪ rows t db) db) ;;;
        insert_associations t sd anchor (id :: seen) ids'
  end.

(** Modelled from the spec: the replacement of one association set. *)
Definition _set_associations (t : AssocTable) (sd : Side) (anchor : Z) (ids : list Z)
  : M Database unit :=
  drop_associations t sd anchor ids ;;;
  insert_associations t sd anchor [] ids.

(** Modelled from the spec: "atomically ... rejects the entire operation
    (no partial effect)": one transaction, rolled back to the state at its
    start when the body raises, committed otherwise. *)
Definition atomically {A} (body : M Database A) : M Database A := λ db,
  match body db with
  | (inl e, _) => (inl e, db)
  | (inr a, db') => (inr a, db')
  end.

(** Modelled from the spec: [GalaxyRBACAgent.set_user_group_and_role_associations]. *)
Definition set_user_group_and_role_associations (user : Z) (group_ids role_ids : list Z)
  : M Database unit :=
  atomically (
    _set_associations UserGroupAssociation AnchorFirst user group_ids ;;;
    _set_associations UserRoleAssociation AnchorFirst user role_ids).

(** Modelled from the spec: [GalaxyRBACAgent.set_group_user_and_role_associations]. *)
Definition set_group_user_and_role_associations (group : Z) (user_ids role_ids : list Z)
  : M Database unit :=
  atomically (
    _set_associations UserGroupAssociation AnchorSecond group user_ids ;;;
    _set_associations GroupRoleAssociation AnchorFirst group role_ids).

(** Modelled from the spec: [GalaxyRBACAgent.set_role_user_and_group_associations]. *)
Definition set_role_user_and_group_associations (role : Z) (user_ids group_ids : list Z)
  : M Database unit :=
  atomically (
    _set_associations UserRoleAssociation AnchorSecond role user_ids ;;;
    _set_associations GroupRoleAssociation AnchorSecond role group_ids).

End Setters.

(** The anchor of a call, and the call it stands for. *)
Inductive Anchor : Type := OfUser (id : Z) | OfGroup (id : Z) | OfRole (id : Z).

(** The two association tables of an anchor, in the order of the two id
    lists of its setter, each with the column the anchor is in. *)
Definition first_table (a : Anchor) : AssocTable * Side :=
  match a with
  | OfUser _ => (UserGroupAssociation, AnchorFirst)
  | OfGroup _ => (UserGroupAssociation, AnchorSecond)
  | OfRole _ => (UserRoleAssociation, AnchorSecond)
  end.

Definition second_table (a : Anchor) : AssocTable * Side :=
  match a with
  | OfUser _ => (UserRoleAssociation, AnchorFirst)
  | OfGroup _ => (GroupRoleAssociation, AnchorFirst)
  | OfRole _ => (GroupRoleAssociation, AnchorSecond)
  end.

Definition anchor_id (a : Anchor) : Z :=
  match a with OfUser i | OfGroup i | OfRole i => i end.

Definition set_associations (a : Anchor) (ids1 ids2 : list Z) : M Database unit :=
  match a with
  | OfUser u => set_user_group_and_role_associations u ids1 ids2
  | OfGroup g => set_group_user_and_role_associations g ids1 ids2
  | OfRole r => set_role_user_and_group_associations r ids1 ids2
  end.

(** The targets associated with [anchor] in table [t]: what the tests
    read as [user.groups], [user.roles], [group.users], ... *)
Definition associated (ts : AssocTable * Side) (anchor : Z) (db : Database) : gset Z :=
  set_map (target_of ts.2) (filter (λ p, anchor_of ts.2 p = anchor) (rows ts.1 db)).


(** The table [t] after the replacement of [anchor]'s associations by
    [ids]. *)
Definition replaced (t : AssocTable) (sd : Side) (db : Database) (anchor : Z)
    (ids : list Z) : gset (Z * Z) :=
  list_to_set (mk_row sd anchor <$> creatable t sd db anchor ids)
  ∪ filter (λ p, kept t sd db anchor ids p = true) (rows t db).


(** The ids of a list all name an entity, and none is repeated. *)
Definition valid_ids (e : Entity) (db : Database) (ids : list Z) : Prop :=
  NoDup ids ∧ ∀ id, id ∈ ids → entity_exists e db id = true.

(** Some id names no entity, or some id is repeated. *)
Definition bad_ids (e : Entity) (db : Database) (ids : list Z) : Prop :=
  (∃ id, id ∈ ids ∧ entity_exists e db id = false) ∨ ¬ NoDup ids.

(** The state of [test_private_user_role_assoc_not_affected_by_setting_*]:
    user 1 with private role 10, after the user's email was changed; two
    more roles, two groups. *)
Definition db0 : Database :=
  {| galaxy_user := <[1 := {| email := "user1@example.org.updated" |}]>
                    (<[2 := {| email := "user2@example.org" |}]> ∅);
     galaxy_group := <[20 := {| group_name := "g20" |}]>
                     (<[21 := {| group_name := "g21" |}]> ∅);
     role := <[10 := {| name := "user1@example.org"; type := PRIVATE |}]>
             (<[11 := {| name := "r11"; type := ADMIN |}]>
              (<[12 := {| name := "r12"; type := SYSTEM |}]> ∅));
     user_role_association := {[ (1, 10); (1, 11) ]};
     user_group_association := {[ (1, 20) ]};
     group_role_association := ∅ |}.

End Security.

(** ** galaxy.security.vault

    The vault classes are exercised by test/unit/security/test_vault.py but
    their code is not among the sources; they are modelled here from the
    specification (section 4.2). *)

Module Vault.

(** A Fernet key. *)
Definition Key : Type := string.

(** Modelled from the spec: a Fernet token, taken symbolically: the value
    sealed under one key. *)
Record Token := { token_key : Key; token_value : string }.

(** Modelled from the spec: the keys of a database vault: the primary key,
    which encrypts, and the keys rotated from, "retained for decrypting
    legacy ciphertext after rotation". *)
Record KeyConfig := { primary_key : Key; rotated_keys : list Key }.

Definition all_keys (conf : KeyConfig) : list Key := primary_key conf :: rotated_keys conf.

(** Modelled from the spec: the three variants of the vault. *)
Inductive Vault : Type :=
| HashicorpVault
| DatabaseVault (conf : KeyConfig)
| CustosVault.

(** Modelled from the spec: what the vaults store into: the Hashicorp
    server, the [vault] table of the database, the Custos service.  A
    vault built again from another configuration file finds the same
    stores. *)
Record Stores := {
  hashicorp_kv : gmap string string;
  vault_table : gmap string Token;
  custos_kv : gmap string string;
}.

(** Modelled from the spec: encryption is under the primary key. *)
Definition encrypt (conf : KeyConfig) (value : string) : Token :=
  {| token_key := primary_key conf; token_value := value |}.

(** Modelled from the spec: decryption under a key set that lacks the
    token's key "raises a token-invalid error". *)
Definition decrypt (conf : KeyConfig) (t : Token) : Exn + string :=
  if bool_decide (token_key t ∈ all_keys conf) then inr (token_value t)
  else inl InvalidToken.

(** Modelled from the spec: [Vault.write_secret(key, value)]. *)
Definition write_secret (v : Vault) (key value : string) : M Stores unit :=
  modify_state (λ s,
    match v with
    | HashicorpVault =>
        {| hashicorp_kv := <[key := value]> (hashicorp_kv s);
           vault_table := vault_table s; custos_kv := custos_kv s |}
    | DatabaseVault conf =>
        {| hashicorp_kv := hashicorp_kv s;
           vault_table := <[key := encrypt conf value]> (vault_table s);
           custos_kv := custos_kv s |}
    | CustosVault =>
        {| hashicorp_kv := hashicorp_kv s; vault_table := vault_table s;
           custos_kv := <[key := value]> (custos_kv s) |}
    end).

(** Modelled from the spec: [Vault.read_secret(key)]; [None] for a key
    that was never written. *)
Definition read_secret (v : Vault) (key : string) : M Stores (option string) :=
  bind get_state (λ s,
    match v with
    | HashicorpVault => ret (hashicorp_kv s !! key)
    | DatabaseVault conf =>
        match vault_table s !! key with
        | None => ret None
        | Some t =>
            match decrypt conf t with
            | inl e => raise e
            | inr value => ret (Some value)
            end
        end
    | CustosVault => ret (custos_kv s !! key)
    end).

(** Three configurations in the manner of the unit tests' fixtures (the
    fixture files are not among the sources; the keys are stand-ins): the
    first keys, a rotation that retains them, and a set of other keys. *)
Definition conf_database : KeyConfig :=
  {| primary_key := "key-2021"; rotated_keys := ["key-2020"] |}.

Definition conf_database_rotated : KeyConfig :=
  {| primary_key := "key-2022"; rotated_keys := ["key-2021"; "key-2020"] |}.

Definition conf_database_invalid_keys : KeyConfig :=
  {| primary_key := "key-other-1"; rotated_keys := ["key-other-2"] |}.

Definition no_secrets : Stores :=
  {| hashicorp_kv := ∅; vault_table := ∅; custos_kv := ∅ |}.

End Vault.

(** ** lib/galaxy/webapps/galaxy/api/chat.py *)

Module Chat.

Record User := { username : string }.

(** [trans]: the request context. *)
Record Trans := { trans_user : option User }.

Record ChatPayload := { payload_query : string }.

(** One message of a stored exchange. *)
Record ChatExchangeMessage := { message : string; feedback : option Z }.

(** A stored exchange: what [chat_manager.get] returns. *)
Record ChatExchange := { messages : list ChatExchangeMessage }.

(** One entry of the message array sent to OpenAI. *)
Record Message := { msg_role : string; msg_content : string }.

(** The part of [GalaxyAppConfiguration] the controller reads. *)
Record GalaxyAppConfiguration := {
  openai_api_key : option string;
  openai_model : string;
  chat_prompts : gmap string string;
}.

Definition DEFAULT_PROMPT : string :=
  String (Ascii.ascii_of_nat 10)
    ("Please only say that something went wrong when configuing the ai prompt in your response."
     +:+ String (Ascii.ascii_of_nat 10) "").

Section ChatAPI.
Local Open Scope py_scope.

(** The chat manager's storage, and its two operations
    ([galaxy.managers.chat.ChatManager], not part of this module). *)
Variable ChatStore : Type.
Variable chat_manager_get : ChatStore → Trans → Z → option ChatExchange.
Variable chat_manager_create : ChatStore → Trans → Z → string → ChatStore.

(** Whether [import openai] succeeded. *)
Variable openai_installed : bool.

(** [openai.chat.completions.create(model=..., messages=...)]: [None] when
    it raises, otherwise the [message.content] of each of the response's
    choices. *)
Variable openai_create : string → list Message → option (list string).

(** [self.config]. *)
Variable config : GalaxyAppConfiguration.

(** What a request can change: the stored exchanges, the module attribute
    [openai.api_key], and the requests sent to OpenAI so far. *)
Record World := {
  chat_store : ChatStore;
  openai_module_api_key : option string;
  openai_calls : list (string * list Message);
}.

(** [_ensure_openai_configured]. *)
Definition _ensure_openai_configured : M World unit :=
  if negb openai_installed then
    raise (ConfigurationError
             "OpenAI is not installed. Please install openai to use this feature.")
  else
    match openai_api_key config with
    | None => raise (ConfigurationError "OpenAI is not configured for this instance.")
    | Some key =>
        modify_state (λ w,
          {| chat_store := chat_store w; openai_module_api_key := Some key;
             openai_calls := openai_calls w |})
    end.

(** [_get_system_prompt]. *)
Definition _get_system_prompt : string :=
  default DEFAULT_PROMPT (chat_prompts config !! "tool_error").

(** [_get_user_context_message]. *)
Definition _get_user_context_message (trans : Trans) : string :=
  match trans_user trans with
  | Some user => "You will address the user as " +:+ username user
  | None => "You will address the user as Anonymous User"
  end.

(** [_build_messages]. *)
Definition _build_messages (payload : ChatPayload) (trans : Trans) : list Message :=
  let messages :=
    [ {| msg_role := "system"; msg_content := _get_system_prompt |};
      {| msg_role := "user"; msg_content := payload_query payload |} ] in
  let user_msg := _get_user_context_message trans in
  if truthy (Some user_msg) then
    messages ++ [ {| msg_role := "system"; msg_content := user_msg |} ]
  else messages.

(** [_call_openai]: the request is sent; any exception becomes a
    [ConfigurationError]. *)
Definition _call_openai (messages : list Message) : M World (list string) :=
  modify_state (λ w,
    {| chat_store := chat_store w; openai_module_api_key := openai_module_api_key w;
       openai_calls := openai_calls w ++ [(openai_model config, messages)] |}) ;;;
  match openai_create (openai_model config) messages with
  | Some choices => ret choices
  | None => raise (ConfigurationError "An error occurred while communicating with OpenAI.")
  end.

(** [if job_id:] on an optional integer: the id when it is set. *)
Definition job_id_set (job_id : option Z) : option Z :=
  if truthy job_id then job_id else None.

(** The lookup at the head of [query]: the stored first message, if the
    job id is set and a response is stored for it. *)
Definition existing_message (job_id : option Z) (trans : Trans)
  : M World (option string) :=
  match job_id_set job_id with
  | Some job =>
      w <- get_state ;;
      match chat_manager_get (chat_store w) trans job with
      | Some existing_response =>
          match messages existing_response with
          | first :: _ => ret (Some (message first))
          | [] => raise (IndexError "list index out of range")
          end
      | None => ret None
      end
  | None => ret None
  end.

(** [query]. *)
Definition query (job_id : option Z) (payload : ChatPayload) (trans : Trans)
  : M World string :=
  existing <- existing_message job_id trans ;;
  match existing with
  | Some stored => ret stored
  | None =>
      _ensure_openai_configured ;;;
      let messages := _build_messages payload trans in
      choices <- _call_openai messages ;;
      answer <- match choices with
                | first :: _ => ret first
                | [] => raise (IndexError "list index out of range")
                end ;;
      match job_id_set job_id with
      | Some job =>
          modify_state (λ w,
            {| chat_store := chat_manager_create (chat_store w) trans job answer;
               openai_module_api_key := openai_module_api_key w;
               openai_calls := openai_calls w |})
      | None => ret tt
      end ;;;
      ret answer
  end.

(** The world once the key is set and one request has been sent. *)
Definition after_call (key : string) (messages : list Message) (w : World) : World :=
  {| chat_store := chat_store w; openai_module_api_key := Some key;
     openai_calls := openai_calls w ++ [(openai_model config, messages)] |}.

(** The world once the answer is stored for a job. *)
Definition after_create (trans : Trans) (job : Z) (answer : string) (w : World) : World :=
  {| chat_store := chat_manager_create (chat_store w) trans job answer;
     openai_module_api_key := openai_module_api_key w;
     openai_calls := openai_calls w |}.

(** No response is stored for the query's job: no job id is set, or the
    chat manager has nothing for it. *)
Definition nothing_stored (job_id : option Z) (trans : Trans) (w : World) : Prop :=
  match job_id_set job_id with
  | Some job => chat_manager_get (chat_store w) trans job = None
  | None => True
  end.

End ChatAPI.

(** *** Concrete instances, used to run the controller on examples *)

(** A chat manager that keeps one exchange per job. *)
Definition store_get (s : gmap Z ChatExchange) (_ : Trans) (job : Z) : option ChatExchange :=
  s !! job.

Definition store_create (s : gmap Z ChatExchange) (_ : Trans) (job : Z) (answer : string)
  : gmap Z ChatExchange :=
  <[job := {| messages := [ {| message := answer; feedback := None |} ] |}]> s.

(** An OpenAI that always gives the same single answer. *)
Definition canned_openai (_ : string) (_ : list Message) : option (list string) :=
  Some ["Check the tool parameters."].

Definition configured : GalaxyAppConfiguration :=
  {| openai_api_key := Some "sk-test"; openai_model := "gpt-4o"; chat_prompts := ∅ |}.

Definition unconfigured : GalaxyAppConfiguration :=
  {| openai_api_key := None; openai_model := "gpt-4o"; chat_prompts := ∅ |}.

(** A world where job 5 has a stored response. *)
Definition world0 : World (gmap Z ChatExchange) :=
  {| chat_store :=
       <[5 := {| messages := [ {| message := "Stored answer."; feedback := None |} ] |}]> ∅;
     openai_module_api_key := None;
     openai_calls := [] |}.

Definition ask : ChatPayload := {| payload_query := "Why did my job fail?" |}.
Definition trans_alice : Trans := {| trans_user := Some {| username := "alice" |} |}.

End Chat.

(** ** lib/galaxy/model/migrations/alembic/versions_gxy/
       d0583094c8cd_add_quota_source_labels.py *)

Module Migration.

(** The column types the migration uses. *)
Inductive SqlType : Type :=
| Integer
| Numeric (precision scale : nat)
| String (length : nat).

(** [Column(name, type, ForeignKey(...), primary_key=..., index=...)]. *)
Record Column := {
  col_name : string;
  col_type : SqlType;
  col_foreign_key : option string;
  col_primary_key : bool;
  col_index : bool;
}.

Record Index := {
  ix_table : string;
  ix_columns : list string;
  ix_unique : bool;
}.

Record Table := {
  columns : list Column;
  unique_constraints : gmap string (list string);
}.

(** The schema: tables by name, indexes by name. *)
Record Schema := {
  tables : gmap string Table;
  indexes : gmap string Index;
}.

(** A value stored in a row; a column the row has no value for is NULL. *)
Inductive Value : Type := VInt (n : Z) | VStr (s : string).

#[global] Instance Value_eq_dec : EqDecision Value.
Proof. solve_decision. Defined.

Definition Row : Type := gmap string Value.

(** A database: its schema and, for each table, its rows by row id. *)
Record Database := {
  schema : Schema;
  data : gmap string (gmap Z Row);
}.

(** Modelled from the spec: the "uniqueness invariant" of a key, as the
    database checks it.  Two rows collide on a key when they agree on
    every column of the key and none of these values is NULL (SQL compares
    NULLs as distinct). *)
Definition conflict (cols : list string) (r r' : Row) : bool :=
  forallb (λ c,
    match r !! c, r' !! c with
    | Some a, Some b => bool_decide (a = b)
    | _, _ => false
    end) cols.

(** No two rows of a table collide on the key. *)
Definition unique_in (cols : list string) (rows : gmap Z Row) : Prop :=
  ∀ i j ri rj, rows !! i = Some ri → rows !! j = Some rj → i ≠ j →
               conflict cols ri rj = false.

(** A row can join the rows of a table: it collides with none of them on
    the key. *)
Definition joins (cols : list string) (rows : gmap Z Row) (r : Row) : Prop :=
  map_Forall (λ _ r', conflict cols r r' = false) rows.

#[global] Instance joins_dec cols rows r : Decision (joins cols rows r).
Proof. unfold joins. apply _. Defined.

#[global] Instance unique_in_dec cols rows : Decision (unique_in cols rows).
Proof.
  refine (cast_if (decide (map_Forall (λ i ri,
            map_Forall (λ j rj, i ≠ j → conflict cols ri rj = false) rows) rows)));
    unfold unique_in.
  - abstract (intros i j ri rj Hi Hj; exact (m _ _ Hi _ _ Hj)).
  - abstract (intros H; apply n; intros i ri Hi j rj Hj; exact (H _ _ _ _ Hi Hj)).
Defined.

(** The keys a table enforces: its unique constraints and its unique
    indexes. *)
Definition unique_keys (s : Schema) (table : string) : list (list string) :=
  match tables s !! table with
  | Some t => (map_to_list (unique_constraints t)).*2
  | None => []
  end
  ++ (ix_columns <$> filter (λ ix, ix_table ix = table ∧ ix_unique ix = true)
                       (map_to_list (indexes s)).*2).

Definition set_tables (f : gmap string Table → gmap string Table) (db : Database)
  : Database :=
  {| schema := {| tables := f (tables (schema db)); indexes := indexes (schema db) |};
     data := data db |}.

Definition set_indexes (f : gmap string Index → gmap string Index) (db : Database)
  : Database :=
  {| schema := {| tables := tables (schema db); indexes := f (indexes (schema db)) |};
     data := data db |}.

Definition set_data (f : gmap string (gmap Z Row) → gmap string (gmap Z Row))
    (db : Database) : Database :=
  {| schema := schema db; data := f (data db) |}.

Definition rows_of (table : string) (db : Database) : gmap Z Row :=
  default ∅ (data db !! table).

Section Revision.
Local Open Scope py_scope.

(** Modelled from the spec: the helpers of [galaxy.model.migrations.util],
    which are not among the sources, as the schema operations their names
    say; an operation on something that is missing, or that would
    duplicate a name, fails, and so does a unique index or constraint
    that the rows of the table do not satisfy. *)
Definition create_index (index_name table_name : string) (cols : list string)
    (unique : bool) : M Database unit :=
  db <- get_state ;;
  match tables (schema db) !! table_name, indexes (schema db) !! index_name with
  | Some _, None =>
      if unique && negb (bool_decide (unique_in cols (rows_of table_name db))) then
        raise (IntegrityError "could not create unique index")
      else
        put_state (set_indexes
          (insert index_name
             {| ix_table := table_name; ix_columns := cols; ix_unique := unique |}) db)
  | _, _ => raise (OperationalError "create_index")
  end.

(** Modelled from the spec: see [create_index]. *)
Definition drop_index (index_name table_name : string) : M Database unit :=
  db <- get_state ;;
  match indexes (schema db) !! index_name with
  | Some ix =>
      if bool_decide (ix_table ix = table_name) then
        put_state (set_indexes (delete index_name) db)
      else raise (OperationalError "drop_index")
  | None => raise (OperationalError "drop_index")
  end.

(** Modelled from the spec: see [create_index]. *)
Definition add_column (table_name : string) (column : Column) : M Database unit :=
  db <- get_state ;;
  match tables (schema db) !! table_name with
  | Some t =>
      if bool_decide (col_name column ∈ col_name <$> columns t) then
        raise (OperationalError "duplicate column name")
      else
        put_state (set_tables
          (insert table_name
             {| columns := columns t ++ [column];
                unique_constraints := unique_constraints t |}) db)
  | None => raise (OperationalError "no such table")
  end.

(** Modelled from the spec: see [create_index]; the values of the column
    go with it. *)
Definition drop_column (table_name column_name : string) : M Database unit :=
  db <- get_state ;;
  match tables (schema db) !! table_name with
  | Some t =>
      if bool_decide (column_name ∈ col_name <$> columns t) then
        put_state (set_data (alter (fmap (delete column_name)) table_name)
          (set_tables
             (insert table_name
                {| columns := filter (λ c, col_name c ≠ column_name) (columns t);
                   unique_constraints := unique_constraints t |}) db))
      else raise (OperationalError "no such column")
  | None => raise (OperationalError "no such table")
  end.

(** The name of the index that [index=True] makes for a column. *)
Definition column_index_name (table_name column_name : string) : string :=
  "ix_" +:+ table_name +:+ "_" +:+ column_name.

Fixpoint create_column_indexes (table_name : string) (cols : list Column)
  : M Database unit :=
  match cols with
  | [] => ret tt
  | c :: cols' =>
      (if col_index c then
         create_index (column_index_name table_name (col_name c)) table_name
           [col_name c] false
       else ret tt) ;;;
      create_column_indexes table_name cols'
  end.

(** Modelled from the spec: see [create_index]; the new table is empty,
    and each column with [index=True] gets its index. *)
Definition create_table (table_name : string) (cols : list Column) : M Database unit :=
  db <- get_state ;;
  match tables (schema db) !! table_name with
  | Some _ => raise (OperationalError "table already exists")
  | None =>
      put_state (set_data (insert table_name ∅)
        (set_tables (insert table_name {| columns := cols; unique_constraints := ∅ |}) db)) ;;;
      create_column_indexes table_name cols
  end.

(** Modelled from the spec: see [create_index]; the table's rows and
    indexes go with it. *)
Definition drop_table (table_name : string) : M Database unit :=
  db <- get_state ;;
  match tables (schema db) !! table_name with
  | Some _ =>
      put_state (set_data (delete table_name)
        (set_indexes (filter (λ kv, ix_table kv.2 ≠ table_name))
           (set_tables (delete table_name) db)))
  | None => raise (OperationalError "no such table")
  end.

(** Modelled from the spec: see [create_index]; the rows already in the
    table must satisfy the constraint. *)
Definition add_unique_constraint (index_name table_name : string) (cols : list string)
  : M Database unit :=
  db <- get_state ;;
  match tables (schema db) !! table_name with
  | Some t =>
      match unique_constraints t !! index_name with
      | Some _ => raise (OperationalError "constraint already exists")
      | None =>
          if bool_decide (unique_in cols (rows_of table_name db)) then
            put_state (set_tables
              (insert table_name
                 {| columns := columns t;
                    unique_constraints := <[index_name := cols]> (unique_constraints t) |})
              db)
          else raise (IntegrityError "could not create unique constraint")
      end
  | None => raise (OperationalError "no such table")
  end.

(** Modelled from the spec: see [create_index]. *)
Definition drop_unique_constraint (index_name table_name : string) : M Database unit :=
  db <- get_state ;;
  match tables (schema db) !! table_name with
  | Some t =>
      match unique_constraints t !! index_name with
      | Some _ =>
          put_state (set_tables
            (insert table_name
               {| columns := columns t;
                  unique_constraints := delete index_name (unique_constraints t) |}) db)
      | None => raise (OperationalError "no such constraint")
      end
  | None => raise (OperationalError "no such table")
  end.

Definition plain_column (name : string) (ty : SqlType) : Column :=
  {| col_name := name; col_type := ty; col_foreign_key := None;
     col_primary_key := false; col_index := false |}.

(** [upgrade]. *)
Definition upgrade : M Database unit :=
  add_column "quota" (plain_column "quota_source_label" (String 32)) ;;;
  create_table "user_quota_source_usage"
    [ {| col_name := "id"; col_type := Integer; col_foreign_key := None;
         col_primary_key := true; col_index := false |};
      {| col_name := "user_id"; col_type := Integer;
         col_foreign_key := Some "galaxy_user.id";
         col_primary_key := false; col_index := true |};
      {| col_name := "quota_source_label"; col_type := String 32;
         col_foreign_key := None; col_primary_key := false; col_index := true |};
      plain_column "disk_usage" (Numeric 15 0) ] ;;;
  add_unique_constraint "uqsu_unique_label_per_user" "user_quota_source_usage"
    ["user_id"; "quota_source_label"] ;;;
  drop_index "ix_default_quota_association_type" "default_quota_association" ;;;
  create_index "ix_quota_quota_source_label" "quota" ["quota_source_label"] false.

(** [downgrade]. *)
Definition downgrade : M Database unit :=
  drop_index "ix_quota_quota_source_label" "quota" ;;;
  create_index "ix_default_quota_association_type" "default_quota_association"
    ["type"] true ;;;
  drop_unique_constraint "uqsu_unique_label_per_user" "user_quota_source_usage" ;;;
  drop_table "user_quota_source_usage" ;;;
  drop_column "quota" "quota_source_label".

End Revision.

(** The new table as [upgrade] leaves it. *)
Definition usage_table : Table :=
  {| columns :=
       [ {| col_name := "id"; col_type := Integer; col_foreign_key := None;
            col_primary_key := true; col_index := false |};
         {| col_name := "user_id"; col_type := Integer;
            col_foreign_key := Some "galaxy_user.id";
            col_primary_key := false; col_index := true |};
         {| col_name := "quota_source_label"; col_type := String 32;
            col_foreign_key := None; col_primary_key := false; col_index := true |};
         plain_column "disk_usage" (Numeric 15 0) ];
     unique_constraints :=
       <["uqsu_unique_label_per_user" := ["user_id"; "quota_source_label"]]> ∅ |}.

(** The schema as [upgrade] leaves it, from the schema before and its
    [quota] table. *)
Definition upgraded_schema (s : Schema) (quota : Table) : Schema :=
  {| tables :=
       <["user_quota_source_usage" := usage_table]>
         (<["quota" := {| columns := columns quota
                                     ++ [plain_column "quota_source_label" (String 32)];
                          unique_constraints := unique_constraints quota |}]>
            (tables s));
     indexes :=
       <["ix_quota_quota_source_label" :=
           {| ix_table := "quota"; ix_columns := ["quota_source_label"];
              ix_unique := false |}]>
         (delete "ix_default_quota_association_type"
            (<["ix_user_quota_source_usage_quota_source_label" :=
                 {| ix_table := "user_quota_source_usage";
                    ix_columns := ["quota_source_label"]; ix_unique := false |}]>
               (<["ix_user_quota_source_usage_user_id" :=
                    {| ix_table := "user_quota_source_usage";
                       ix_columns := ["user_id"]; ix_unique := false |}]>
                  (indexes s)))) |}.

(** Every index of the schema is on one of its tables. *)
Definition indexes_on_tables (s : Schema) : Prop :=
  ∀ name ix, indexes s !! name = Some ix → is_Some (tables s !! ix_table ix).

(** The facts about the schema before that let [downgrade] give it back. *)
Definition restorable (s : Schema) (quota : Table) : Prop :=
  tables s !! "quota" = Some quota
  ∧ "quota_source_label" ∉ col_name <$> columns quota
  ∧ tables s !! "user_quota_source_usage" = None
  ∧ indexes s !! "ix_user_quota_source_usage_user_id" = None
  ∧ indexes s !! "ix_user_quota_source_usage_quota_source_label" = None
  ∧ indexes s !! "ix_quota_quota_source_label" = None
  ∧ indexes s !! "ix_default_quota_association_type"
    = Some {| ix_table := "default_quota_association"; ix_columns := ["type"];
              ix_unique := true |}
  ∧ indexes_on_tables s.

(** Modelled from the spec: what the database does with rows once the
    schema is in place: a row is inserted or changed only if it collides
    with no other row on any key the table enforces; a row may be
    deleted. *)
Inductive step : Database → Database → Prop :=
| step_insert db table rows id row :
    data db !! table = Some rows →
    rows !! id = None →
    (∀ cols, cols ∈ unique_keys (schema db) table → joins cols rows row) →
    step db (set_data (insert table (<[id := row]> rows)) db)
| step_update db table rows id row :
    data db !! table = Some rows →
    is_Some (rows !! id) →
    (∀ cols, cols ∈ unique_keys (schema db) table → joins cols (delete id rows) row) →
    step db (set_data (insert table (<[id := row]> rows)) db)
| step_delete db table rows id :
    data db !! table = Some rows →
    step db (set_data (insert table (delete id rows)) db).

(** The schema before the migration, as far as the migration touches it. *)
Definition schema0 : Schema :=
  {| tables :=
       <["quota" := {| columns := [ {| col_name := "id"; col_type := Integer;
                                       col_foreign_key := None; col_primary_key := true;
                                       col_index := false |};
                                    plain_column "name" (String 255) ];
                       unique_constraints := ∅ |}]>
       (<["default_quota_association" :=
            {| columns := [ plain_column "type" (String 32);
                            plain_column "quota_id" Integer ];
               unique_constraints := ∅ |}]> ∅);
     indexes :=
       <["ix_default_quota_association_type" :=
           {| ix_table := "default_quota_association"; ix_columns := ["type"];
              ix_unique := true |}]> ∅ |}.

Definition database0 : Database :=
  {| schema := schema0;
     data := <["quota" := ∅]> (<["default_quota_association" := ∅]> ∅) |}.

(** Two default quota associations of the same type, as two rows. *)
Definition registered_row : Row := <["type" := VStr "registered"]> ∅.

Definition with_duplicate_types (db : Database) : Database :=
  set_data (insert "default_quota_association"
              (<[2 := registered_row]> (<[1 := registered_row]> ∅))) db.



End Migration.

(** ** visualizations.py, continued: the payload validation loop and
       [index] *)

Module VisualizationPayloads.
Import Visualizations.

(** A value of a dumped payload, as [model_dump()] hands it to the
    validation loop. *)
Inductive PyVal : Type :=
| PyNone
| PyStr (s : string)
| PyBool (b : bool)
| PyInt (n : Z)
| PyDict (d : Config)
| PyList (l : list Json).

(** [str(type(val))]. *)
Definition type_name (val : PyVal) : string :=
  match val with
  | PyNone => "<class 'NoneType'>"
  | PyStr _ => "<class 'str'>"
  | PyBool _ => "<class 'bool'>"
  | PyInt _ => "<class 'int'>"
  | PyDict _ => "<class 'dict'>"
  | PyList _ => "<class 'list'>"
  end.

Definition valid_but_uneditable_keys : list string := ["id"; "model_class"].

Definition ValidationError : string → Exn := RequestParameterInvalidException.

Section Validation.

Variable sanitize_html : string → string.

(** The check of a key whose value must be a string, which is then
    sanitized; [what] is the wording of the message. *)
Definition sanitized_str (key what : string) (val : PyVal) : Exn + option PyVal :=
  match val with
  | PyStr s => inr (Some (PyStr (sanitize_html s)))
  | _ => inl (ValidationError (key +:+ " must be " +:+ what +:+ ": " +:+ type_name val))
  end.

(** One round of the loop of [_validate_and_parse_payload]: the exception
    raised, or [None] for [continue], or the value stored under the key. *)
Definition validate_item (key : string) (val : PyVal) : Exn + option PyVal :=
  match val with
  | PyNone => inr None
  | _ =>
      if String.eqb key "type" then sanitized_str key "a string or unicode" val
      else if String.eqb key "config" then
        match val with
        | PyDict _ => inr (Some val)
        | _ => inl (ValidationError (key +:+ " must be a dictionary: " +:+ type_name val))
        end
      else if String.eqb key "annotation" then sanitized_str key "a string or unicode" val
      else if String.eqb key "deleted" then
        match val with
        | PyBool _ => inr (Some val)
        | _ => inl (ValidationError (key +:+ " must be a bool: " +:+ type_name val))
        end
      else if String.eqb key "title" then sanitized_str key "a string or unicode" val
      else if String.eqb key "slug" then sanitized_str key "a string" val
      else if String.eqb key "dbkey" then sanitized_str key "a string or unicode" val
      else if negb (bool_decide (key ∈ valid_but_uneditable_keys)) then inr None
      else inr (Some val)
  end.

(** The loop over [payload.model_dump().items()], filling
    [validated_payload]. *)
Fixpoint validate_items (items : list (string * PyVal))
    (validated_payload : gmap string PyVal) : Exn + gmap string PyVal :=
  match items with
  | [] => inr validated_payload
  | (key, val) :: items' =>
      match validate_item key val with
      | inl e => inl e
      | inr None => validate_items items' validated_payload
      | inr (Some val') => validate_items items' (<[key := val']> validated_payload)
      end
  end.

(** What the loop stores for a value that passed its check: the
    sanitized string under the keys whose value it sanitizes, the value
    itself under the others. *)
Definition validated_value (key : string) (val : PyVal) : PyVal :=
  match val with
  | PyStr s =>
      if bool_decide (key ∈ ["type"; "annotation"; "title"; "slug"; "dbkey"])
      then PyStr (sanitize_html s) else val
  | _ => val
  end.

End Validation.

(** The keys the loop can store a value under. *)
Definition stored_keys : list string :=
  ["type"; "config"; "annotation"; "deleted"; "title"; "slug"; "dbkey";
   "id"; "model_class"].

(** The value has the type the loop demands for the key ([None] and the
    values of the other keys pass). *)
Definition well_typed (key : string) (val : PyVal) : bool :=
  match val with
  | PyNone => true
  | _ =>
      if bool_decide (key ∈ ["type"; "annotation"; "title"; "slug"; "dbkey"]) then
        match val with PyStr _ => true | _ => false end
      else if String.eqb key "config" then
        match val with PyDict _ => true | _ => false end
      else if String.eqb key "deleted" then
        match val with PyBool _ => true | _ => false end
      else true
  end.

(** [exceptions.AdminRequiredException], raised by [index]. *)
Inductive IndexExn : Type := AdminRequiredException (msg : string).

Section Index.

(** [VisualizationIndexQueryPayload] with its [user_id] filter, the
    entries of the manager, and [manager.index_query] and [entry.to_dict]
    (none of them part of this service). *)
Variable Payload Entry Summary : Type.
Variable payload_user_id : Payload → option Z.
Variable index_query : Trans → Payload → bool → list Entry * Z.
Variable to_dict : Entry → Summary.

(** [index]. *)
Definition index (trans : Trans) (payload : Payload) (include_total_count : bool)
  : IndexExn + (list Summary * Z) :=
  let rejected :=
    if negb (user_is_admin trans) then
      (* user_id = trans.user and trans.user.id *)
      let user_id := user_id <$> trans_user trans in
      truthy (payload_user_id payload) && bool_decide (payload_user_id payload ≠ user_id)
    else false in
  if rejected then
    inl (AdminRequiredException "Only admins can index the visualizations of others")
  else
    let '(entries, total_matches) := index_query trans payload include_total_count in
    inr (to_dict <$> entries, total_matches).

End Index.

End VisualizationPayloads.

(** * Properties *)

Module VisualizationsSpec.
Import Visualizations.

Section Update.
Variable sanitize_html : string → string.
Variable json_dumps : option Config → string.
Variable security_check : Trans → Visualization → bool → bool → option Exn.

Local Abbreviation update := (Visualizations.update sanitize_html json_dumps security_check).
Local Abbreviation validate := (_validate_and_parse_payload sanitize_html).

(** The boolean test of [update] says what it reads: one of the three
    fields differs. *)
Lemma content_changed_spec title dbkey config latest :
  content_changed json_dumps title dbkey config latest = true ↔
  title ≠ rev_title latest ∨ dbkey ≠ rev_dbkey latest
  ∨ json_dumps config ≠ json_dumps (rev_config latest).
Proof.
  unfold content_changed.
  rewrite !orb_true_iff, !bool_decide_eq_true. tauto.
Qed.

(** [update] on a visualization that is found, passes the ownership check
    and has a latest revision, unfolded to its two branches. *)
Lemma update_unfold trans vid payload s v latest :
  visualization_table s !! vid = Some v →
  security_check trans v true false = None →
  latest_revision v = Some latest →
  let p := validate payload in
  let title := py_or (p_title p) (rev_title latest) in
  let dbkey := py_or (p_dbkey p) (rev_dbkey latest) in
  let deleted := py_or (p_deleted p) (vis_deleted v) in
  let config := py_or (p_config p) (rev_config latest) in
  let new := {| rev_id := next_revision_id s; rev_visualization_id := vis_id v;
                rev_title := title; rev_dbkey := dbkey; rev_config := config |} in
  update trans vid payload s =
  if content_changed json_dumps title dbkey config latest then
    let v1 := set_latest_revision new v in
    (inr (Some {| resp_id := vid; resp_revision := next_revision_id s |}),
     store_visualization (set_deleted deleted (set_title title v1))
       (store_visualization v1 (bump_revision_id s)))
  else
    (inr None, store_visualization (set_deleted deleted (set_title title v)) s).
Proof.
  intros Hv Hsec Hlat. cbv zeta.
  unfold Visualizations.update, _get_visualization, latest_revision_of, bind, get_state.
  rewrite Hv, Hsec. unfold ret at 1. rewrite Hlat. unfold ret at 1.
  destruct (content_changed _ _ _ _ _); reflexivity.
Qed.

(** C6 (amended).  For an owned visualization, [update] makes a new
    revision exactly when the effective title or dbkey (the payload's
    value, or the latest revision's when the payload's is falsy) differs
    from the latest revision's, or the [json.dumps] text of the effective
    config differs from the [json.dumps] text of the latest revision's
    config.  When one differs, the new revision carries the effective
    values, is appended to [revisions], becomes [latest_revision], and its
    id is returned; when none differs, no revision is made and [update]
    returns [None]. *)
Theorem update_new_revision_iff_content_differs
    (trans : Trans) (visualization_id : Z) (payload : VisualizationUpdatePayload)
    (s : Session) (v : Visualization) (latest : VisualizationRevision) :
  visualization_table s !! visualization_id = Some v →
  vis_id v = visualization_id →
  security_check trans v true false = None →
  latest_revision v = Some latest →
  let p := validate payload in
  let title := py_or (p_title p) (rev_title latest) in
  let dbkey := py_or (p_dbkey p) (rev_dbkey latest) in
  let config := py_or (p_config p) (rev_config latest) in
  let differs := title ≠ rev_title latest ∨ dbkey ≠ rev_dbkey latest
                 ∨ json_dumps config ≠ json_dumps (rev_config latest) in
  let new := {| rev_id := next_revision_id s; rev_visualization_id := visualization_id;
                rev_title := title; rev_dbkey := dbkey; rev_config := config |} in
  let result := update trans visualization_id payload s in
  ∃ v', visualization_table (snd result) !! visualization_id = Some v' ∧
    (differs →
       fst result = inr (Some {| resp_id := visualization_id; resp_revision := rev_id new |})
       ∧ latest_revision v' = Some new
       ∧ revisions v' = revisions v ++ [new]
       ∧ next_revision_id (snd result) = next_revision_id s + 1) ∧
    (¬ differs →
       fst result = inr None
       ∧ latest_revision v' = Some latest
       ∧ revisions v' = revisions v
       ∧ next_revision_id (snd result) = next_revision_id s).
Proof.
  intros Hv Hid Hsec Hlat. cbv zeta.
  rewrite (update_unfold _ _ _ _ _ _ Hv Hsec Hlat). cbv zeta.
  rewrite Hid.
  destruct (content_changed _ _ _ _ _) eqn:Hc.
  - apply content_changed_spec in Hc.
    eexists. split.
    + cbn. rewrite Hid. apply lookup_insert_eq.
    + split; [intros _; cbn; repeat split; reflexivity |].
      intros Hn; contradiction.
  - assert (Hn : ¬ (py_or (p_title (validate payload)) (rev_title latest) ≠ rev_title latest
               ∨ py_or (p_dbkey (validate payload)) (rev_dbkey latest) ≠ rev_dbkey latest
               ∨ json_dumps (py_or (p_config (validate payload)) (rev_config latest))
                 ≠ json_dumps (rev_config latest))).
    { rewrite <- content_changed_spec, Hc. discriminate. }
    eexists. split.
    + cbn. rewrite Hid. apply lookup_insert_eq.
    + split; [intros Hd; contradiction |].
      intros _; cbn; repeat split; try reflexivity; exact Hlat.
Qed.

(** Whatever [update] does, the visualization stays in the session under
    its id, and a [deleted] flag that was [True] is [True] afterwards. *)
Lemma update_keeps_deleted trans vid payload s v :
  visualization_table s !! vid = Some v →
  vis_id v = vid →
  vis_deleted v = Some true →
  ∃ v', visualization_table (snd (update trans vid payload s)) !! vid = Some v'
        ∧ vis_deleted v' = Some true.
Proof.
  intros Hv Hid Hdel.
  destruct (security_check trans v true false) as [e|] eqn:Hsec.
  { exists v. unfold Visualizations.update, _get_visualization, bind, get_state.
    rewrite Hv, Hsec. cbn. auto. }
  destruct (latest_revision v) as [latest|] eqn:Hlat.
  2:{ exists v. unfold Visualizations.update, _get_visualization, latest_revision_of,
        bind, get_state.
      rewrite Hv, Hsec. unfold ret at 1. rewrite Hlat. cbn. auto. }
  rewrite (update_unfold _ _ _ _ _ _ Hv Hsec Hlat). cbv zeta.
  assert (Hd : py_or (p_deleted (validate payload)) (vis_deleted v) = Some true).
  { unfold py_or. rewrite Hdel.
    destruct (p_deleted (validate payload)) as [[]|]; reflexivity. }
  rewrite Hd.
  destruct (content_changed _ _ _ _ _); eexists; split;
    try (cbn; rewrite Hid; apply lookup_insert_eq); reflexivity.
Qed.

(** A falsy payload field is read as an absent one. *)
Lemma update_falsy_as_absent trans vid payload s :
  sanitize_html "" = "" →
  update trans vid (with_title (Some "") payload) s
  = update trans vid (with_title None payload) s
  ∧ update trans vid (with_dbkey (Some "") payload) s
    = update trans vid (with_dbkey None payload) s
  ∧ update trans vid (with_deleted (Some false) payload) s
    = update trans vid (with_deleted None payload) s
  ∧ update trans vid (with_config (Some []) payload) s
    = update trans vid (with_config None payload) s.
Proof.
  intros Hs.
  unfold Visualizations.update, _validate_and_parse_payload, bind; cbn.
  rewrite Hs.
  repeat split;
    destruct (_get_visualization security_check trans vid true false s) as [[e|v] s1];
    try reflexivity;
    destruct (latest_revision_of v s1) as [[e|l] s2]; reflexivity.
Qed.

(** C9 (amended).  [update] reads a falsy payload field as absent: an
    empty-string title or dbkey, [deleted=False] and an empty config give
    the same result as leaving the field out.  So a visualization whose
    [deleted] flag is [True] keeps it through every [update] call,
    whatever the payload and the caller.  With an empty-string dbkey in
    the payload the latest revision afterwards has the dbkey of the latest
    revision before and the visualization keeps its own.  With an
    empty-string title the latest revision afterwards has the title of the
    latest revision before, and that title is written to the
    visualization too, whatever title it had. *)
Theorem update_falsy_payload_fields_fall_back
    (trans : Trans) (visualization_id : Z) (payload : VisualizationUpdatePayload)
    (s : Session) (v : Visualization) :
  visualization_table s !! visualization_id = Some v →
  vis_id v = visualization_id →
  sanitize_html "" = "" →
  let result := update trans visualization_id payload s in
  (vis_deleted v = Some true →
     ∃ v', visualization_table (snd result) !! visualization_id = Some v'
           ∧ vis_deleted v' = Some true)
  ∧ (update trans visualization_id (with_title (Some "") payload) s
       = update trans visualization_id (with_title None payload) s
     ∧ update trans visualization_id (with_dbkey (Some "") payload) s
       = update trans visualization_id (with_dbkey None payload) s
     ∧ update trans visualization_id (with_deleted (Some false) payload) s
       = update trans visualization_id (with_deleted None payload) s
     ∧ update trans visualization_id (with_config (Some []) payload) s
       = update trans visualization_id (with_config None payload) s)
  ∧ (∀ latest,
       security_check trans v true false = None →
       latest_revision v = Some latest →
       ∃ v' latest',
         visualization_table (snd result) !! visualization_id = Some v'
         ∧ latest_revision v' = Some latest'
         ∧ (p_title payload = Some "" →
              rev_title latest' = rev_title latest ∧ vis_title v' = rev_title latest)
         ∧ (p_dbkey payload = Some "" →
              rev_dbkey latest' = rev_dbkey latest ∧ vis_dbkey v' = vis_dbkey v)).
Proof.
  intros Hv Hid Hs. cbv zeta. split; [| split].
  - intros Hdel. eapply update_keeps_deleted; eauto.
  - apply update_falsy_as_absent, Hs.
  - intros latest Hsec Hlat.
    rewrite (update_unfold _ _ _ _ _ _ Hv Hsec Hlat). cbv zeta.
    assert (Ht : p_title payload = Some "" →
                 py_or (p_title (validate payload)) (rev_title latest) = rev_title latest).
    { intros E. unfold _validate_and_parse_payload; cbn. rewrite E; cbn.
      rewrite Hs. reflexivity. }
    assert (Hk : p_dbkey payload = Some "" →
                 py_or (p_dbkey (validate payload)) (rev_dbkey latest) = rev_dbkey latest).
    { intros E. unfold _validate_and_parse_payload; cbn. rewrite E; cbn.
      rewrite Hs. reflexivity. }
    remember (py_or (p_title (validate payload)) (rev_title latest)) as title.
    remember (py_or (p_dbkey (validate payload)) (rev_dbkey latest)) as dbkey.
    destruct (content_changed _ _ _ _ _).
    + eexists. eexists. split; [cbn; rewrite Hid; apply lookup_insert_eq |].
      split; [reflexivity |]. cbn. split; intros E.
      * rewrite (Ht E). auto.
      * rewrite (Hk E). auto.
    + eexists. exists latest. split; [cbn; rewrite Hid; apply lookup_insert_eq |].
      split; [exact Hlat |]. cbn. split; intros E.
      * rewrite (Ht E). auto.
      * auto.
Qed.

End Update.

Section Importing.
Variable security_check : Trans → Visualization → bool → bool → option Exn.
Variable visualization_copy : Visualization → User → string → Visualization.

Local Abbreviation get_visualization := (_get_visualization security_check).
Local Abbreviation import_visualization :=
  (_import_visualization security_check visualization_copy).

(** A failed lookup changes nothing in the session. *)
Lemma get_visualization_pure trans vid co ca s :
  snd (get_visualization trans vid co ca s) = s.
Proof.
  unfold _get_visualization, bind, get_state.
  destruct (visualization_table s !! vid) as [v|]; [| reflexivity].
  destruct (security_check trans v co ca); reflexivity.
Qed.

(** An import that raises has stored no copy: the session is as before. *)
Lemma import_failure_no_copy trans vid s e s' :
  import_visualization trans vid s = (inl e, s') → s' = s.
Proof.
  unfold _import_visualization.
  destruct (trans_user trans) as [u|]; [| intros [= _ <-]; reflexivity].
  unfold bind at 1.
  pose proof (get_visualization_pure trans vid false false s) as Hp.
  destruct (get_visualization trans vid false false s) as [[e0|v] s1]; cbn in Hp; subst s1.
  { intros [= _ <-]; reflexivity. }
  destruct (truthy (vis_importable v)); cbn; [| intros [= _ <-]; reflexivity].
  destruct (truthy (vis_deleted v)); cbn; [intros [= _ <-]; reflexivity |].
  unfold bind, get_state, put_state, ret. discriminate.
Qed.

(** C8.  [_get_visualization] raises [ObjectNotFound] when no
    visualization has the given id.  [_import_visualization] checks in
    this order: an anonymous caller gets [ItemAccessibilityException]; a
    visualization that is found and is not importable gets
    [ItemAccessibilityException]; one that is importable and deleted gets
    [ItemDeletionException].  Every failure of the import leaves the
    session as it was: no copy is stored. *)
Theorem import_visualization_typed_failures
    (trans : Trans) (visualization_id : Z) (s : Session) :
  (∀ check_ownership check_accessible,
     visualization_table s !! visualization_id = None →
     get_visualization trans visualization_id check_ownership check_accessible s
     = (inl (ObjectNotFound "Visualization not found"), s))
  ∧ (trans_user trans = None →
     import_visualization trans visualization_id s
     = (inl (ItemAccessibilityException
               "You must be logged in to import Galaxy visualizations"), s))
  ∧ (∀ v, is_Some (trans_user trans) →
     visualization_table s !! visualization_id = Some v →
     security_check trans v false false = None →
     (truthy (vis_importable v) = false →
      import_visualization trans visualization_id s
      = (inl (ItemAccessibilityException
                "The owner of this visualization has disabled imports via this link."), s))
     ∧ (truthy (vis_importable v) = true → truthy (vis_deleted v) = true →
        import_visualization trans visualization_id s
        = (inl (ItemDeletionException
                  "You can't import this visualization because it has been deleted."), s)))
  ∧ (∀ e s', import_visualization trans visualization_id s = (inl e, s') → s' = s).
Proof.
  split; [| split; [| split]].
  - intros co ca Hnone. unfold _get_visualization, bind, get_state.
    rewrite Hnone. reflexivity.
  - intros Hanon. unfold _import_visualization. rewrite Hanon. reflexivity.
  - intros v [u Hu] Hv Hsec. unfold _import_visualization. rewrite Hu.
    split; unfold bind at 1, _get_visualization, bind, get_state;
      rewrite Hv, Hsec; unfold ret at 1.
    + intros Hi. rewrite Hi. reflexivity.
    + intros Hi Hd. rewrite Hi, Hd. reflexivity.
  - intros e s'. apply import_failure_no_copy.
Qed.

End Importing.

(** Counterexample to C6 as stated: Alice sends visualization 11 the
    config it has, with the two keys in the other order.  The effective
    title and dbkey are those of the latest revision and the effective
    config is the same dictionary as the latest revision's, yet [update]
    makes revision 5: the two [json.dumps] texts differ. *)
Lemma update_same_config_other_key_order_new_revision :
  visualization_table session1 !! 11 = Some vis11
  ∧ latest_revision vis11 = Some rev4
  ∧ py_or (p_title (_validate_and_parse_payload (λ x, x) payload_reordered))
          (rev_title rev4) = rev_title rev4
  ∧ py_or (p_dbkey (_validate_and_parse_payload (λ x, x) payload_reordered))
          (rev_dbkey rev4) = rev_dbkey rev4
  ∧ same_config
      (py_or (p_config (_validate_and_parse_payload (λ x, x) payload_reordered))
             (rev_config rev4))
      (rev_config rev4)
  ∧ dumps_config (Some [("b", JInt 1); ("a", JInt 2)])
    ≠ dumps_config (Some [("a", JInt 2); ("b", JInt 1)])
  ∧ fst (update (λ x, x) dumps_config owner_security_check as_alice 11
           payload_reordered session1)
    = inr (Some {| resp_id := 11; resp_revision := 5 |}).
Proof.
  do 4 (split; [reflexivity |]).
  split; [vm_compute; reflexivity |].
  split; [vm_compute; discriminate | vm_compute; reflexivity].
Qed.

(** Counterexample to C9 as stated: Bob updates visualization 10, whose
    title is "imported: plot", with an empty-string title.  No revision
    is made, and the visualization's title is overwritten with "plot",
    the title of its latest revision. *)
Lemma update_empty_title_overwrites_visualization_title :
  visualization_table session1 !! 10 = Some vis10
  ∧ vis_title vis10 = Some "imported: plot"
  ∧ fst (update (λ x, x) dumps_config owner_security_check as_bob 10
           (with_title (Some "") payload_none) session1) = inr None
  ∧ vis_title <$>
      visualization_table
        (snd (update (λ x, x) dumps_config owner_security_check as_bob 10
                (with_title (Some "") payload_none) session1)) !! 10
    = Some (Some "plot").
Proof.
  repeat split; reflexivity.
Qed.

(** Witness of C6: Alice retitles her visualization 7. *)
Lemma update_new_revision_iff_content_differs_witness :
  fst (update (λ x, x) dumps_config owner_security_check as_alice 7
         (with_title (Some "plot, revised") payload_none) session0)
  = inr (Some {| resp_id := 7; resp_revision := 3 |}).
Proof.
  destruct (update_new_revision_iff_content_differs (λ x, x) dumps_config
              owner_security_check as_alice 7
              (with_title (Some "plot, revised") payload_none) session0 vis7 rev1
              eq_refl eq_refl eq_refl eq_refl) as (v' & _ & Hd & _).
  apply Hd. left. discriminate.
Defined.

(** Witness of C9: Alice updates her deleted visualization 8 with
    [deleted=False]. *)
Lemma update_falsy_payload_fields_fall_back_witness :
  ∃ v', visualization_table
          (snd (update (λ x, x) dumps_config owner_security_check as_alice 8
                  (with_deleted (Some false) payload_none) session0)) !! 8 = Some v'
        ∧ vis_deleted v' = Some true.
Proof.
  apply (update_falsy_payload_fields_fall_back (λ x, x) dumps_config
           owner_security_check as_alice 8
           (with_deleted (Some false) payload_none) session0 vis8
           eq_refl eq_refl eq_refl).
  reflexivity.
Defined.

(** Witness of C8: Bob imports visualization 9, which is
    importable and deleted. *)
Lemma import_visualization_typed_failures_witness :
  _import_visualization owner_security_check plain_copy as_bob 9 session0
  = (inl (ItemDeletionException
            "You can't import this visualization because it has been deleted."), session0).
Proof.
  destruct (import_visualization_typed_failures owner_security_check plain_copy
              as_bob 9 session0) as (_ & _ & H & _).
  destruct (H vis9 (ex_intro _ bob eq_refl) eq_refl eq_refl) as [_ Hd].
  apply Hd; reflexivity.
Defined.

End VisualizationsSpec.

Module SecuritySpec.
Import Security.

(** *** The association tables as fields of the database *)

Lemma rows_set_rows t r db : rows t (set_rows t r db) = r.
Proof. destruct t; reflexivity. Qed.

Lemma rows_set_rows_ne t t' r db : t ≠ t' → rows t' (set_rows t r db) = rows t' db.
Proof. destruct t, t'; intros H; try reflexivity; contradiction. Qed.

Lemma set_rows_set_rows t r1 r2 db : set_rows t r2 (set_rows t r1 db) = set_rows t r2 db.
Proof. destruct t; reflexivity. Qed.

Lemma entity_exists_set_rows e t r db id :
  entity_exists e (set_rows t r db) id = entity_exists e db id.
Proof. destruct e, t; reflexivity. Qed.

Lemma protected_set_rows t t' r db p : protected t' (set_rows t r db) p = protected t' db p.
Proof. destruct t, t'; reflexivity. Qed.

Lemma kept_set_rows t t' sd r db a ids p :
  kept t' sd (set_rows t r db) a ids p = kept t' sd db a ids p.
Proof. unfold kept. rewrite protected_set_rows. reflexivity. Qed.




(** *** Insertion of the listed ids *)

Lemma creatable_set_rows t t' sd r db a ids :
  creatable t' sd (set_rows t r db) a ids = creatable t' sd db a ids.
Proof.
  unfold creatable. apply list_filter_iff. intros id.
  rewrite protected_set_rows. reflexivity.
Qed.

Lemma creatable_cons t sd db a id ids :
  creatable t sd db a (id :: ids)
  = if protected t db (mk_row sd a id) then creatable t sd db a ids
    else id :: creatable t sd db a ids.
Proof.
  destruct (protected t db (mk_row sd a id)) eqn:H.
  - apply (filter_cons_False (λ id, protected t db (mk_row sd a id) = false)).
    rewrite H. discriminate.
  - apply (filter_cons_True (λ id, protected t db (mk_row sd a id) = false)).
    exact H.
Qed.

(** When the insertions go through, the table has gained exactly the
    rows of the listed ids that may be created; nothing else in the
    database has changed. *)
Lemma insert_associations_inr t sd a ids : ∀ seen db db',
  insert_associations t sd a seen ids db = (inr tt, db') →
  db' = set_rows t (list_to_set (mk_row sd a <$> creatable t sd db a ids) ∪ rows t db) db
  ∧ NoDup ids
  ∧ (∀ id, id ∈ ids → (id ∉ seen) ∧ entity_exists (target_entity t sd) db id = true).
Proof.
  induction ids as [|id ids IH]; intros seen db db'.
  - intros [= <-]. split; [| split].
    + change (creatable t sd db a []) with (@nil Z).
      rewrite fmap_nil, list_to_set_nil, union_empty_l_L.
      destruct t, db; reflexivity.
    + constructor.
    + intros id Hid. apply elem_of_nil in Hid. contradiction.
  - cbn. unfold bind, get_state.
    destruct (bool_decide (id ∈ seen)) eqn:Hseen; [discriminate |].
    destruct (entity_exists (target_entity t sd) db id) eqn:Hex; [| discriminate].
    apply bool_decide_eq_false in Hseen.
    cbn. destruct (protected t db (mk_row sd a id)) eqn:Hpr.
    + intros H. apply IH in H as (-> & Hnd & Hall).
      split; [| split].
      * rewrite creatable_cons, Hpr. reflexivity.
      * constructor; [| exact Hnd].
        intros Hin. apply Hall in Hin as [Hin _]. apply Hin. left.
      * intros x [->|Hx]%elem_of_cons; [auto |].
        destruct (Hall x Hx) as [Hns Hxe]. split; [| exact Hxe].
        intros Hin. apply Hns. right. exact Hin.
    + cbn. intros H. apply IH in H as (-> & Hnd & Hall).
      split; [| split].
      * rewrite set_rows_set_rows, rows_set_rows, creatable_set_rows. f_equal.
        rewrite (creatable_cons t sd db a id ids), Hpr.
        rewrite fmap_cons, list_to_set_cons.
        rewrite (assoc_L (∪)). f_equal. apply (comm_L (∪)).
      * constructor; [| exact Hnd].
        intros Hin. apply Hall in Hin as [Hin _]. apply Hin. left.
      * intros x [->|Hx]%elem_of_cons; [auto |].
        destruct (Hall x Hx) as [Hns Hxe].
        rewrite entity_exists_set_rows in Hxe. split; [| exact Hxe].
        intros Hin. apply Hns. right. exact Hin.
Qed.

(** The only exception an insertion raises is the parameter-validation
    error. *)
Lemma insert_associations_inl t sd a ids : ∀ seen db e db',
  insert_associations t sd a seen ids db = (inl e, db') →
  ∃ msg, e = RequestParameterInvalidException msg.
Proof.
  induction ids as [|id ids IH]; intros seen db e db'; cbn; [discriminate |].
  unfold bind, get_state.
  destruct (bool_decide (id ∈ seen)); [intros [= <- _]; eauto |].
  destruct (entity_exists (target_entity t sd) db id); cbn; [| intros [= <- _]; eauto].
  destruct (protected t db (mk_row sd a id)); apply IH.
Qed.

(** Distinct ids that all name an entity are all inserted. *)
Lemma insert_associations_succeeds t sd a ids : ∀ seen db,
  NoDup ids →
  (∀ id, id ∈ ids → id ∉ seen) →
  (∀ id, id ∈ ids → entity_exists (target_entity t sd) db id = true) →
  ∃ db', insert_associations t sd a seen ids db = (inr tt, db').
Proof.
  induction ids as [|id ids IH]; intros seen db Hnd Hseen Hex; cbn; [eauto |].
  unfold bind, get_state.
  apply NoDup_cons in Hnd as [Hni Hnd].
  rewrite bool_decide_eq_false_2 by (apply Hseen; left).
  rewrite Hex by left. cbn.
  assert (Hseen' : ∀ x, x ∈ ids → x ∉ id :: seen).
  { intros x Hx [->|Hin]%elem_of_cons; [contradiction |].
    apply (Hseen x); [right; exact Hx | exact Hin]. }
  destruct (protected t db (mk_row sd a id)).
  - apply IH; [exact Hnd | exact Hseen' |].
    intros x Hx. apply Hex. right. exact Hx.
  - apply IH; [exact Hnd | exact Hseen' |].
    intros x Hx. rewrite entity_exists_set_rows. apply Hex. right. exact Hx.
Qed.

(** *** Replacement of one association set *)

Lemma _set_associations_inr t sd a ids db db' :
  _set_associations t sd a ids db = (inr tt, db') →
  db' = set_rows t (list_to_set (mk_row sd a <$> creatable t sd db a ids)
                    ∪ filter (λ p, kept t sd db a ids p = true) (rows t db)) db
  ∧ valid_ids (target_entity t sd) db ids.
Proof.
  unfold _set_associations, drop_associations, bind, modify_state.
  intros H. apply insert_associations_inr in H as (-> & Hnd & Hall).
  rewrite set_rows_set_rows, rows_set_rows, creatable_set_rows. split; [reflexivity |].
  split; [exact Hnd |]. intros id Hid.
  destruct (Hall id Hid) as [_ He]. rewrite entity_exists_set_rows in He. exact He.
Qed.

Lemma _set_associations_inl t sd a ids db e db' :
  _set_associations t sd a ids db = (inl e, db') →
  ∃ msg, e = RequestParameterInvalidException msg.
Proof.
  unfold _set_associations, drop_associations, bind, modify_state.
  apply insert_associations_inl.
Qed.

Lemma _set_associations_succeeds t sd a ids db :
  valid_ids (target_entity t sd) db ids →
  ∃ db', _set_associations t sd a ids db = (inr tt, db').
Proof.
  intros [Hnd Hex].
  unfold _set_associations, drop_associations, bind, modify_state.
  apply insert_associations_succeeds; [exact Hnd | |].
  - intros id _ []%elem_of_nil.
  - intros id Hid. rewrite entity_exists_set_rows. auto.
Qed.

(** Valid and bad exclude each other, so a bad list makes the replacement
    raise. *)
Lemma bad_not_valid e db ids : bad_ids e db ids → ¬ valid_ids e db ids.
Proof.
  intros [(id & Hin & Hf)|Hd] [Hnd Hall]; [| contradiction].
  rewrite (Hall id Hin) in Hf. discriminate.
Qed.

Lemma _set_associations_fails t sd a ids db :
  bad_ids (target_entity t sd) db ids →
  ∃ msg db', _set_associations t sd a ids db = (inl (RequestParameterInvalidException msg), db').
Proof.
  intros Hbad.
  destruct (_set_associations t sd a ids db) as [[e|[]] db'] eqn:E.
  - destruct (_set_associations_inl _ _ _ _ _ _ _ E) as [msg ->]. eauto.
  - apply _set_associations_inr in E as [_ Hv].
    destruct (bad_not_valid _ _ _ Hbad Hv).
Qed.

(** *** The two replacements of a call, in one transaction *)

Lemma set_associations_unfold a ids1 ids2 :
  set_associations a ids1 ids2
  = atomically
      (bind (_set_associations (first_table a).1 (first_table a).2 (anchor_id a) ids1)
         (λ _, _set_associations (second_table a).1 (second_table a).2 (anchor_id a) ids2)).
Proof. destruct a; reflexivity. Qed.

Lemma tables_differ a : (first_table a).1 ≠ (second_table a).1.
Proof. destruct a; discriminate. Qed.

(** A call either raises the parameter-validation error and leaves the
    database as it was, or both lists are valid and both tables are
    replaced. *)
Lemma set_associations_result a ids1 ids2 db :
  (∃ msg, set_associations a ids1 ids2 db = (inl (RequestParameterInvalidException msg), db))
  ∨ (valid_ids (target_entity (first_table a).1 (first_table a).2) db ids1
     ∧ valid_ids (target_entity (second_table a).1 (second_table a).2) db ids2
     ∧ set_associations a ids1 ids2 db
       = (inr tt,
          set_rows (second_table a).1
            (replaced (second_table a).1 (second_table a).2 db (anchor_id a) ids2)
            (set_rows (first_table a).1
               (replaced (first_table a).1 (first_table a).2 db (anchor_id a) ids1) db))).
Proof.
  rewrite set_associations_unfold. unfold atomically, bind.
  destruct (_set_associations _ _ _ ids1 db) as [[e|[]] db1] eqn:E1.
  { left. destruct (_set_associations_inl _ _ _ _ _ _ _ E1) as [msg ->]. eauto. }
  apply _set_associations_inr in E1 as [-> Hv1].
  match goal with |- context [_set_associations ?t ?sd ?x ids2 ?d] =>
    destruct (_set_associations t sd x ids2 d) as [[e|[]] db2] eqn:E2 end.
  { left. destruct (_set_associations_inl _ _ _ _ _ _ _ E2) as [msg ->]. eauto. }
  apply _set_associations_inr in E2 as [-> [Hnd2 Hex2]].
  right. split; [exact Hv1 |]. split.
  - split; [exact Hnd2 |]. intros id Hid.
    specialize (Hex2 id Hid). rewrite entity_exists_set_rows in Hex2. exact Hex2.
  - f_equal. f_equal. unfold replaced.
    rewrite rows_set_rows_ne by apply tables_differ.
    rewrite creatable_set_rows. f_equal.
    apply set_eq. intros p. rewrite !elem_of_filter, kept_set_rows. reflexivity.
Qed.

Lemma set_associations_succeeds a ids1 ids2 db :
  valid_ids (target_entity (first_table a).1 (first_table a).2) db ids1 →
  valid_ids (target_entity (second_table a).1 (second_table a).2) db ids2 →
  fst (set_associations a ids1 ids2 db) = inr tt.
Proof.
  intros Hv1 [Hnd2 Hex2].
  rewrite set_associations_unfold. unfold atomically, bind.
  destruct (_set_associations_succeeds _ _ (anchor_id a) _ _ Hv1) as [db1 E1].
  rewrite E1.
  pose proof E1 as E1'. apply _set_associations_inr in E1' as [-> _].
  match goal with |- context [_set_associations ?t ?sd ?x ids2 ?d] =>
    destruct (_set_associations_succeeds t sd x ids2 d) as [db2 E2] end.
  { split; [exact Hnd2 |]. intros id Hid. rewrite entity_exists_set_rows. auto. }
  rewrite E2. reflexivity.
Qed.


(** A protected row is in its table after any call, whatever the anchor
    and the lists. *)
Lemma protected_row_survives a ids1 ids2 db p :
  p ∈ user_role_association db →
  protected UserRoleAssociation db p = true →
  p ∈ user_role_association (snd (set_associations a ids1 ids2 db)).
Proof.
  intros Hp Hpr.
  destruct (set_associations_result a ids1 ids2 db) as [[msg ->]|(_ & _ & ->)];
    [exact Hp |].
  assert (Hk : ∀ sd x ids, p ∈ replaced UserRoleAssociation sd db x ids).
  { intros sd x ids. unfold replaced. apply elem_of_union. right.
    apply elem_of_filter. split; [| exact Hp].
    unfold kept. rewrite Hpr. apply orb_true_r. }
  destruct a; cbn; auto.
Qed.

(** C1.  A user's association with a PRIVATE role is in place after every
    bulk replacement: [set_user_group_and_role_associations] on the user
    with any group and role ids, [set_role_user_and_group_associations] on
    the private role with any user and group ids, and indeed any call on
    any anchor, whether it succeeds or raises.  Nothing is assumed about
    the user's email and the role's name, which may differ. *)
Theorem private_role_association_preserved
    (db : Database) (user private_role : Z)
    (group_ids role_ids user_ids : list Z) :
  (user, private_role) ∈ user_role_association db →
  is_private db private_role = true →
  (user, private_role)
    ∈ user_role_association
        (snd (set_user_group_and_role_associations user group_ids role_ids db))
  ∧ (user, private_role)
      ∈ user_role_association
          (snd (set_role_user_and_group_associations private_role user_ids group_ids db))
  ∧ ∀ a ids1 ids2,
      (user, private_role) ∈ user_role_association (snd (set_associations a ids1 ids2 db)).
Proof.
  intros Hin Hpriv.
  assert (H : ∀ a ids1 ids2,
    (user, private_role) ∈ user_role_association (snd (set_associations a ids1 ids2 db))).
  { intros. apply protected_row_survives; [exact Hin | exact Hpriv]. }
  split; [apply (H (OfUser user)) |]. split; [apply (H (OfRole private_role)) | exact H].
Qed.

(** C2.  If, in either list, some id names no entity or some id occurs
    twice, the call raises [RequestParameterInvalidException] and the
    database is what it was before the call; in particular both
    association sets of the anchor are unchanged. *)
Theorem invalid_or_duplicate_id_rejected
    (a : Anchor) (ids1 ids2 : list Z) (db : Database) :
  bad_ids (target_entity (first_table a).1 (first_table a).2) db ids1
  ∨ bad_ids (target_entity (second_table a).1 (second_table a).2) db ids2 →
  let result := set_associations a ids1 ids2 db in
  (∃ msg, fst result = inl (RequestParameterInvalidException msg))
  ∧ snd result = db
  ∧ associated (first_table a) (anchor_id a) (snd result)
    = associated (first_table a) (anchor_id a) db
  ∧ associated (second_table a) (anchor_id a) (snd result)
    = associated (second_table a) (anchor_id a) db.
Proof.
  intros Hbad. cbv zeta.
  destruct (set_associations_result a ids1 ids2 db) as [[msg ->]|(Hv1 & Hv2 & _)].
  - cbn. eauto.
  - destruct Hbad as [Hb|Hb]; eapply bad_not_valid in Hb; contradiction.
Qed.


(** Witness of C1: the state of the unit test, where the user's email no
    longer equals the private role's name. *)
Lemma private_role_association_preserved_witness :
  (email <$> galaxy_user db0 !! 1) ≠ (name <$> role db0 !! 10)
  ∧ (1, 10) ∈ user_role_association
                (snd (set_user_group_and_role_associations 1 [] [] db0))
  ∧ (1, 10) ∈ user_role_association
                (snd (set_role_user_and_group_associations 10 [] [] db0)).
Proof.
  split; [discriminate |].
  destruct (private_role_association_preserved db0 1 10 [] [] [])
    as (H1 & H2 & _); [| reflexivity | exact (conj H1 H2)].
  apply elem_of_union. left. apply elem_of_singleton. reflexivity.
Defined.

(** Witness of C2: user 1, a valid group id followed by the invalid [-1]. *)
Lemma invalid_or_duplicate_id_rejected_witness :
  snd (set_associations (OfUser 1) [20; -1] [11] db0) = db0.
Proof.
  apply (invalid_or_duplicate_id_rejected (OfUser 1) [20; -1] [11] db0).
  left. left. exists (-1). split; [| reflexivity].
  apply elem_of_cons. right. apply elem_of_cons. left. reflexivity.
Defined.



End SecuritySpec.

Module VaultSpec.
Import Vault.

(** Reading a key back from the stores a write has produced. *)
Lemma read_after_write v key value s :
  read_secret v key (snd (write_secret v key value s))
  = (inr (Some value), snd (write_secret v key value s)).
Proof.
  destruct v as [|conf|]; unfold read_secret, write_secret, bind, get_state, modify_state;
    cbn; rewrite lookup_insert_eq; [reflexivity | | reflexivity].
  unfold decrypt, encrypt, all_keys; cbn.
  rewrite bool_decide_eq_true_2 by left. reflexivity.
Qed.

(** C4.  For each of the three vaults, every key and every value:
    [write_secret(k, v)] succeeds, and [read_secret(k)] then returns [v];
    after a second [write_secret(k, v')] it returns [v']. *)
Theorem vault_read_after_write (v : Vault) (k value value' : string) (s : Stores) :
  let s1 := snd (write_secret v k value s) in
  let s2 := snd (write_secret v k value' s1) in
  fst (write_secret v k value s) = inr tt
  ∧ fst (read_secret v k s1) = inr (Some value)
  ∧ fst (write_secret v k value' s1) = inr tt
  ∧ fst (read_secret v k s2) = inr (Some value').
Proof.
  cbv zeta. rewrite !read_after_write. repeat split.
Qed.

(** C5.  A secret written by the database vault under the primary key [K]
    is still read back by a vault configured with another primary key
    that retains [K] among its rotated keys; a vault whose keys do not
    include [K] raises [InvalidToken] on that path, which is not what it
    gives for a path that was never written ([None], no exception). *)
Theorem database_vault_key_rotation
    (conf conf' : KeyConfig) (path value unwritten : string) (s : Stores) :
  let s1 := snd (write_secret (DatabaseVault conf) path value s) in
  (primary_key conf ∈ rotated_keys conf' →
     read_secret (DatabaseVault conf') path s1 = (inr (Some value), s1))
  ∧ (primary_key conf ∉ all_keys conf' →
     read_secret (DatabaseVault conf') path s1 = (inl InvalidToken, s1)
     ∧ (vault_table s1 !! unwritten = None →
        read_secret (DatabaseVault conf') unwritten s1 = (inr None, s1)
        ∧ fst (read_secret (DatabaseVault conf') path s1)
          ≠ fst (read_secret (DatabaseVault conf') unwritten s1))).
Proof.
  cbv zeta. unfold read_secret, write_secret, bind, get_state, modify_state; cbn.
  rewrite lookup_insert_eq. unfold decrypt, encrypt; cbn. split.
  - intros Hin. rewrite bool_decide_eq_true_2; [reflexivity |].
    unfold all_keys. right. exact Hin.
  - intros Hnin. rewrite bool_decide_eq_false_2 by exact Hnin.
    split; [reflexivity |]. intros Hnone. rewrite Hnone.
    split; [reflexivity | discriminate].
Qed.

(** Witness of C5: the secret of [test_rotate_keys] and [test_wrong_keys]. *)
Lemma database_vault_key_rotation_witness :
  fst (read_secret (DatabaseVault conf_database_rotated) "my/rotated/secret"
         (snd (write_secret (DatabaseVault conf_database) "my/rotated/secret"
                 "hello rotated" no_secrets)))
  = inr (Some "hello rotated")
  ∧ fst (read_secret (DatabaseVault conf_database_invalid_keys) "my/rotated/secret"
           (snd (write_secret (DatabaseVault conf_database) "my/rotated/secret"
                   "hello rotated" no_secrets)))
    = inl InvalidToken
  ∧ fst (read_secret (DatabaseVault conf_database_invalid_keys) "never/written"
           (snd (write_secret (DatabaseVault conf_database) "my/rotated/secret"
                   "hello rotated" no_secrets)))
    = inr None.
Proof.
  destruct (database_vault_key_rotation conf_database conf_database_rotated
              "my/rotated/secret" "hello rotated" "never/written" no_secrets)
    as [Hrot _].
  destruct (database_vault_key_rotation conf_database conf_database_invalid_keys
              "my/rotated/secret" "hello rotated" "never/written" no_secrets)
    as [_ Hbad].
  split.
  - rewrite Hrot; [reflexivity |]. left.
  - destruct Hbad as [Hinv Hmiss].
    + intros Hin. vm_compute in Hin.
      apply list_elem_of_In in Hin. cbn in Hin.
      destruct Hin as [H|[H|[]]]; discriminate H.
    + split; [rewrite Hinv; reflexivity |].
      destruct Hmiss as [Hn _]; [reflexivity | rewrite Hn; reflexivity].
Defined.

End VaultSpec.

Module ChatSpec.
Import Chat.

Section Query.
Variable ChatStore : Type.
Variable chat_manager_get : ChatStore → Trans → Z → option ChatExchange.
Variable chat_manager_create : ChatStore → Trans → Z → string → ChatStore.
Variable openai_installed : bool.
Variable openai_create : string → list Message → option (list string).
Variable config : GalaxyAppConfiguration.

Local Abbreviation query :=
  (Chat.query ChatStore chat_manager_get chat_manager_create openai_installed
     openai_create config).
Local Abbreviation build_messages := (_build_messages config).

Local Abbreviation after_call := (Chat.after_call ChatStore config).
Local Abbreviation after_create := (Chat.after_create ChatStore chat_manager_create).
Local Abbreviation nothing_stored := (Chat.nothing_stored ChatStore chat_manager_get).
Local Abbreviation existing_message := (Chat.existing_message ChatStore chat_manager_get).

(** The lookup never changes the world. *)
Lemma existing_message_pure job_id trans w :
  snd (existing_message job_id trans w) = w.
Proof.
  unfold Chat.existing_message.
  destruct (job_id_set job_id) as [job|]; [| reflexivity].
  unfold bind, get_state.
  destruct (chat_manager_get _ trans job) as [[[|first rest]]|]; reflexivity.
Qed.

(** With nothing stored the lookup finds nothing. *)
Lemma existing_message_none job_id trans w :
  nothing_stored job_id trans w → existing_message job_id trans w = (inr None, w).
Proof.
  unfold Chat.nothing_stored, Chat.existing_message.
  destruct (job_id_set job_id) as [job|]; [| reflexivity].
  intros Hn. unfold bind, get_state. rewrite Hn. reflexivity.
Qed.

(** C10.  [query] with a job id that is set, for which a response with a
    first message is stored, returns that message and leaves the world as
    it was: no request to OpenAI, no configuration check (the module's
    API key is not touched), nothing created.  When nothing is stored (or
    no job id is set), OpenAI must be installed and configured, otherwise
    [ConfigurationError] is raised before any request; then one request
    is sent, a failure of which is a [ConfigurationError]; the first
    choice is the answer, stored for the job when the job id is set, and
    returned.  Whenever something is stored for the job, the world is left
    unchanged. *)
Theorem query_stored_response_or_openai
    (job_id : option Z) (payload : ChatPayload) (trans : Trans) (w : World ChatStore) :
  (∀ job existing first rest,
     job_id_set job_id = Some job →
     chat_manager_get (chat_store _ w) trans job = Some existing →
     messages existing = first :: rest →
     query job_id payload trans w = (inr (message first), w))
  ∧ (nothing_stored job_id trans w →
     (openai_installed = false ∨ openai_api_key config = None →
      ∃ msg, query job_id payload trans w = (inl (ConfigurationError msg), w))
     ∧ (∀ key, openai_installed = true → openai_api_key config = Some key →
        let msgs := build_messages payload trans in
        let w1 := after_call key msgs w in
        match openai_create (openai_model config) msgs with
        | None =>
            ∃ msg, query job_id payload trans w = (inl (ConfigurationError msg), w1)
        | Some [] =>
            ∃ msg, query job_id payload trans w = (inl (IndexError msg), w1)
        | Some (answer :: _) =>
            query job_id payload trans w
            = (inr answer,
               match job_id_set job_id with
               | Some job => after_create trans job answer w1
               | None => w1
               end)
        end))
  ∧ (∀ job existing,
       job_id_set job_id = Some job →
       chat_manager_get (chat_store _ w) trans job = Some existing →
       snd (query job_id payload trans w) = w).
Proof.
  split; [| split].
  - intros job existing first rest Hjob Hget Hmsg.
    unfold Chat.query, Chat.existing_message, bind, get_state.
    rewrite Hjob, Hget, Hmsg. reflexivity.
  - intros Hn. pose proof (existing_message_none _ _ _ Hn) as He. split.
    + intros Hc. unfold Chat.query, bind. rewrite He.
      unfold _ensure_openai_configured.
      destruct Hc as [-> | ->]; [cbn; eauto |].
      destruct openai_installed; cbn; eauto.
    + intros key Hinst Hkey. cbv zeta.
      unfold Chat.query, bind. rewrite He.
      unfold _ensure_openai_configured. rewrite Hinst, Hkey. cbn.
      unfold _call_openai, bind, modify_state.
      destruct (openai_create _ _) as [[|answer others]|]; cbn; eauto.
      destruct (job_id_set job_id); reflexivity.
  - intros job existing Hjob Hget.
    unfold Chat.query, Chat.existing_message, bind, get_state.
    rewrite Hjob, Hget. destruct (messages existing); reflexivity.
Qed.

End Query.

(** Witness of C10: job 5 has a stored response; job 6 has none and the
    instance has no API key. *)
Lemma query_stored_response_or_openai_witness :
  query _ store_get store_create true canned_openai unconfigured
    (Some 5) ask trans_alice world0
  = (inr "Stored answer.", world0)
  ∧ ∃ msg, query _ store_get store_create true canned_openai unconfigured
             (Some 6) ask trans_alice world0
           = (inl (ConfigurationError msg), world0).
Proof.
  split.
  - destruct (query_stored_response_or_openai _ store_get store_create true
                canned_openai unconfigured (Some 5) ask trans_alice world0)
      as [H _].
    exact (H 5 _ _ _ eq_refl eq_refl eq_refl).
  - destruct (query_stored_response_or_openai _ store_get store_create true
                canned_openai unconfigured (Some 6) ask trans_alice world0)
      as (_ & H & _).
    destruct (H eq_refl) as [Hc _].
    apply Hc. right. reflexivity.
Defined.

End ChatSpec.

Module MigrationSpec.
Import Migration.

(** *** Inversion of the monad and of the schema operations *)

Lemma bind_inr {S A B} (m : M S A) (k : A → M S B) s b s' :
  bind m k s = (inr b, s') → ∃ a s1, m s = (inr a, s1) ∧ k a s1 = (inr b, s').
Proof.
  unfold bind. destruct (m s) as [[e|a] s1]; [discriminate | eauto].
Qed.

Lemma add_column_inr table c db db' :
  add_column table c db = (inr tt, db') →
  ∃ t, tables (schema db) !! table = Some t
       ∧ col_name c ∉ col_name <$> columns t
       ∧ db' = set_tables (insert table {| columns := columns t ++ [c];
                                           unique_constraints := unique_constraints t |}) db.
Proof.
  unfold add_column, bind, get_state.
  destruct (tables (schema db) !! table) as [t|]; [| discriminate].
  case_bool_decide; [discriminate |]. intros [= <-]. eauto.
Qed.

Lemma create_index_inr name table cols unique db db' :
  create_index name table cols unique db = (inr tt, db') →
  is_Some (tables (schema db) !! table)
  ∧ indexes (schema db) !! name = None
  ∧ (unique = true → unique_in cols (rows_of table db))
  ∧ db' = set_indexes (insert name {| ix_table := table; ix_columns := cols;
                                      ix_unique := unique |}) db.
Proof.
  unfold create_index, bind, get_state.
  destruct (tables (schema db) !! table) as [t|]; [| discriminate].
  destruct (indexes (schema db) !! name); [discriminate |].
  destruct unique; cbn.
  - case_bool_decide; cbn; [| discriminate]. intros [= <-]. eauto.
  - intros [= <-]. repeat split; eauto. discriminate.
Qed.

Lemma drop_index_inr name table db db' :
  drop_index name table db = (inr tt, db') →
  (∃ ix, indexes (schema db) !! name = Some ix ∧ ix_table ix = table)
  ∧ db' = set_indexes (delete name) db.
Proof.
  unfold drop_index, bind, get_state.
  destruct (indexes (schema db) !! name) as [ix|]; [| discriminate].
  case_bool_decide; [| discriminate]. intros [= <-]. eauto.
Qed.

Lemma create_column_indexes_inr table cols : ∀ db db',
  create_column_indexes table cols db = (inr tt, db') →
  data db' = data db ∧ tables (schema db') = tables (schema db)
  ∧ indexes (schema db')
    = foldl (λ m c, <[column_index_name table (col_name c) :=
                        {| ix_table := table; ix_columns := [col_name c];
                           ix_unique := false |}]> m)
        (indexes (schema db)) (filter (λ c, col_index c = true) cols)
  ∧ ∀ c, c ∈ cols → col_index c = true →
         indexes (schema db) !! column_index_name table (col_name c) = None.
Proof.
  induction cols as [|c cols IH]; intros db db' H; cbn in H.
  - injection H as <-. repeat split. intros c []%elem_of_nil.
  - apply bind_inr in H as ([] & db1 & H1 & H2).
    apply IH in H2 as (Hd & Ht & Hi & Hfree).
    destruct (col_index c) eqn:Hc.
    + apply create_index_inr in H1 as (_ & Hn & _ & ->).
      rewrite filter_cons_True by exact Hc. cbn in *.
      repeat split; try assumption.
      intros c' [->|Hin]%elem_of_cons Hc'; [exact Hn |].
      specialize (Hfree c' Hin Hc').
      apply lookup_insert_None in Hfree as [Hfree _]. exact Hfree.
    + injection H1 as <-.
      rewrite filter_cons_False by (rewrite Hc; discriminate).
      repeat split; try assumption.
      intros c' [->|Hin]%elem_of_cons Hc'; [congruence | auto].
Qed.

Lemma create_table_inr table cols db db' :
  create_table table cols db = (inr tt, db') →
  tables (schema db) !! table = None
  ∧ data db' = <[table := ∅]> (data db)
  ∧ tables (schema db')
    = <[table := {| columns := cols; unique_constraints := ∅ |}]> (tables (schema db))
  ∧ indexes (schema db')
    = foldl (λ m c, <[column_index_name table (col_name c) :=
                        {| ix_table := table; ix_columns := [col_name c];
                           ix_unique := false |}]> m)
        (indexes (schema db)) (filter (λ c, col_index c = true) cols)
  ∧ ∀ c, c ∈ cols → col_index c = true →
         indexes (schema db) !! column_index_name table (col_name c) = None.
Proof.
  unfold create_table. intros H. apply bind_inr in H as (db0 & s1 & [= <- <-] & H).
  destruct (tables (schema db) !! table); [discriminate |].
  apply bind_inr in H as ([] & db1 & [= <-] & H).
  apply create_column_indexes_inr in H as (Hd & Ht & Hi & Hfree).
  cbn in *. auto.
Qed.

Lemma add_unique_constraint_inr name table cols db db' :
  add_unique_constraint name table cols db = (inr tt, db') →
  ∃ t, tables (schema db) !! table = Some t
       ∧ unique_constraints t !! name = None
       ∧ unique_in cols (rows_of table db)
       ∧ db' = set_tables
                 (insert table {| columns := columns t;
                                  unique_constraints := <[name := cols]> (unique_constraints t) |})
                 db.
Proof.
  unfold add_unique_constraint, bind, get_state.
  destruct (tables (schema db) !! table) as [t|]; [| discriminate].
  destruct (unique_constraints t !! name) eqn:Hn; [discriminate |].
  case_bool_decide; [| discriminate]. intros [= <-]. eauto.
Qed.

Lemma drop_unique_constraint_inr name table db db' :
  drop_unique_constraint name table db = (inr tt, db') →
  ∃ t, tables (schema db) !! table = Some t
       ∧ is_Some (unique_constraints t !! name)
       ∧ db' = set_tables
                 (insert table {| columns := columns t;
                                  unique_constraints := delete name (unique_constraints t) |})
                 db.
Proof.
  unfold drop_unique_constraint, bind, get_state.
  destruct (tables (schema db) !! table) as [t|]; [| discriminate].
  destruct (unique_constraints t !! name) eqn:Hn; [| discriminate].
  intros [= <-]. eauto.
Qed.

Lemma drop_table_inr table db db' :
  drop_table table db = (inr tt, db') →
  is_Some (tables (schema db) !! table)
  ∧ db' = set_data (delete table)
            (set_indexes (filter (λ kv, ix_table kv.2 ≠ table))
               (set_tables (delete table) db)).
Proof.
  unfold drop_table, bind, get_state.
  destruct (tables (schema db) !! table) as [t|]; [| discriminate].
  intros [= <-]. eauto.
Qed.

Lemma drop_column_inr table col db db' :
  drop_column table col db = (inr tt, db') →
  ∃ t, tables (schema db) !! table = Some t
       ∧ col ∈ col_name <$> columns t
       ∧ db' = set_data (alter (fmap (delete col)) table)
                 (set_tables
                    (insert table
                       {| columns := filter (λ c, col_name c ≠ col) (columns t);
                          unique_constraints := unique_constraints t |}) db).
Proof.
  unfold drop_column, bind, get_state.
  destruct (tables (schema db) !! table) as [t|]; [| discriminate].
  case_bool_decide; [| discriminate]. intros [= <-]. eauto.
Qed.

(** *** What [upgrade] does *)

Lemma upgrade_inr db0 db1 :
  upgrade db0 = (inr tt, db1) →
  ∃ quota ix,
    tables (schema db0) !! "quota" = Some quota
    ∧ "quota_source_label" ∉ col_name <$> columns quota
    ∧ tables (schema db0) !! "user_quota_source_usage" = None
    ∧ indexes (schema db0) !! "ix_user_quota_source_usage_user_id" = None
    ∧ indexes (schema db0) !! "ix_user_quota_source_usage_quota_source_label" = None
    ∧ indexes (schema db0) !! "ix_quota_quota_source_label" = None
    ∧ indexes (schema db0) !! "ix_default_quota_association_type" = Some ix
    ∧ ix_table ix = "default_quota_association"
    ∧ schema db1 = upgraded_schema (schema db0) quota
    ∧ data db1 = <["user_quota_source_usage" := ∅]> (data db0).
Proof.
  unfold upgrade. intros H.
  apply bind_inr in H as ([] & d1 & H1 & H).
  apply bind_inr in H as ([] & d2 & H2 & H).
  apply bind_inr in H as ([] & d3 & H3 & H).
  apply bind_inr in H as ([] & d4 & H4 & H5).
  apply add_column_inr in H1 as (quota & Hq & Hcol & ->).
  apply create_table_inr in H2 as (Hnone & Hd2 & Ht2 & Hi2 & Hfree).
  apply add_unique_constraint_inr in H3 as (t & Ht & _ & _ & ->).
  apply drop_index_inr in H4 as ((ix & Hix & Hixt) & ->).
  apply create_index_inr in H5 as (_ & Hixq & _ & ->).
  match type of Hi2 with context [filter ?P ?l] =>
    let r := eval vm_compute in (filter P l) in change (filter P l) with r in Hi2
  end.
  cbn in *.
  rewrite Ht2, lookup_insert_eq in Ht. injection Ht as <-.
  rewrite lookup_insert_ne in Hnone by discriminate.
  rewrite Hi2 in Hix, Hixq.
  rewrite lookup_delete_ne in Hixq by discriminate.
  rewrite !lookup_insert_ne in Hix, Hixq by discriminate.
  exists quota, ix. repeat split; try assumption.
  - apply (Hfree _ (list_elem_of_further _ _ _ (list_elem_of_here _ _)) eq_refl).
  - apply (Hfree _ (list_elem_of_further _ _ _
                      (list_elem_of_further _ _ _ (list_elem_of_here _ _))) eq_refl).
  - unfold upgraded_schema, usage_table. f_equal.
    + rewrite Ht2, insert_insert_eq. reflexivity.
    + rewrite Hi2. reflexivity.
Qed.

(** *** Rows under the data operations *)


Lemma step_schema db db' : step db db' → schema db' = schema db.
Proof. destruct 1; reflexivity. Qed.





(** *** What [downgrade] does to the upgraded schema *)

Lemma filter_other_columns name (cols : list Column) :
  name ∉ col_name <$> cols → filter (λ c, col_name c ≠ name) cols = cols.
Proof.
  induction cols as [|c cols IH]; [reflexivity |].
  rewrite fmap_cons, not_elem_of_cons. intros [Hc Hn].
  rewrite filter_cons_True by congruence. rewrite IH by exact Hn. reflexivity.
Qed.

Lemma downgrade_tables s quota :
  restorable s quota →
  <["quota" := {| columns := filter (λ c, col_name c ≠ "quota_source_label")
                               (columns quota
                                ++ [plain_column "quota_source_label" (String 32)]);
                  unique_constraints := unique_constraints quota |}]>
    (delete "user_quota_source_usage"
       (<["user_quota_source_usage" :=
            {| columns := columns usage_table;
               unique_constraints :=
                 delete "uqsu_unique_label_per_user" (unique_constraints usage_table) |}]>
          (tables (upgraded_schema s quota))))
  = tables s.
Proof.
  intros (Hq & Hcol & Hnone & _).
  unfold upgraded_schema; cbn.
  rewrite delete_insert_eq, delete_insert_eq, delete_insert_ne by discriminate.
  rewrite (delete_id _ _ Hnone), insert_insert_eq.
  rewrite filter_app, (filter_other_columns _ _ Hcol).
  rewrite filter_cons_False by (cbn; intros H; apply H; reflexivity).
  rewrite filter_nil, app_nil_r.
  apply insert_id. rewrite Hq. destruct quota; reflexivity.
Qed.

Lemma downgrade_indexes s quota :
  restorable s quota →
  filter (λ kv : string * Index, ix_table kv.2 ≠ "user_quota_source_usage")
    (<["ix_default_quota_association_type" :=
         {| ix_table := "default_quota_association"; ix_columns := ["type"];
            ix_unique := true |}]>
       (delete "ix_quota_quota_source_label" (indexes (upgraded_schema s quota))))
  = indexes s.
Proof.
  intros (_ & _ & Hnone & Hu & Hl & Hqx & Hd & Hwf).
  unfold upgraded_schema; cbn.
  rewrite delete_insert_eq.
  apply map_eq. intros k. apply option_eq. intros x.
  rewrite map_lookup_filter_Some; cbn.
  destruct (decide (k = "ix_default_quota_association_type")) as [->|Hkd].
  { rewrite lookup_insert_eq, Hd. split.
    - intros [[= <-] _]. reflexivity.
    - intros [= <-]. split; [reflexivity | discriminate]. }
  rewrite lookup_insert_ne by congruence.
  destruct (decide (k = "ix_quota_quota_source_label")) as [->|Hkq].
  { rewrite lookup_delete_eq, Hqx. split; [intros [[=] _] | intros [=]]. }
  rewrite lookup_delete_ne by congruence.
  rewrite lookup_delete_ne by congruence.
  destruct (decide (k = "ix_user_quota_source_usage_quota_source_label")) as [->|Hkl].
  { rewrite lookup_insert_eq, Hl. split; [| intros [=]].
    intros [[= <-] Hne]. cbn in Hne. contradiction. }
  rewrite lookup_insert_ne by congruence.
  destruct (decide (k = "ix_user_quota_source_usage_user_id")) as [->|Hku].
  { rewrite lookup_insert_eq, Hu. split; [| intros [=]].
    intros [[= <-] Hne]. cbn in Hne. contradiction. }
  rewrite lookup_insert_ne by congruence.
  split; [intros [H _]; exact H |]. intros Hk. split; [exact Hk |].
  intros Htab. destruct (Hwf _ _ Hk) as [t Ht]. rewrite Htab, Hnone in Ht. discriminate.
Qed.

(** Whatever rows the database holds, a [downgrade] that goes through
    gives the schema before the upgrade back. *)
Lemma downgrade_inr s quota db db' :
  restorable s quota →
  schema db = upgraded_schema s quota →
  downgrade db = (inr tt, db') →
  schema db' = s.
Proof.
  intros Hres Hs. unfold downgrade. intros H.
  apply bind_inr in H as ([] & d1 & H1 & H).
  apply bind_inr in H as ([] & d2 & H2 & H).
  apply bind_inr in H as ([] & d3 & H3 & H).
  apply bind_inr in H as ([] & d4 & H4 & H5).
  apply drop_index_inr in H1 as (_ & ->).
  apply create_index_inr in H2 as (_ & _ & _ & ->).
  apply drop_unique_constraint_inr in H3 as (t & Ht & _ & ->).
  apply drop_table_inr in H4 as (_ & ->).
  apply drop_column_inr in H5 as (t' & Ht' & _ & ->).
  cbn in *. rewrite Hs in *.
  assert (t = usage_table) as ->.
  { unfold upgraded_schema in Ht; cbn in Ht. rewrite lookup_insert_eq in Ht. congruence. }
  assert (t' = {| columns := columns quota
                             ++ [plain_column "quota_source_label" (String 32)];
                  unique_constraints := unique_constraints quota |}) as ->.
  { unfold upgraded_schema in Ht'; cbn in Ht'.
    rewrite lookup_delete_ne, lookup_insert_ne, lookup_insert_ne, lookup_insert_eq
      in Ht' by discriminate. congruence. }
  transitivity {| tables := tables s; indexes := indexes s |};
    [| destruct s; reflexivity].
  f_equal; [exact (downgrade_tables _ _ Hres) | exact (downgrade_indexes _ _ Hres)].
Qed.

(** *** When the operations of [downgrade] go through *)

Lemma bind_ok {S A B} (m : M S A) (k : A → M S B) s a s1 :
  m s = (inr a, s1) → bind m k s = k a s1.
Proof. unfold bind. intros ->. reflexivity. Qed.

Lemma drop_index_ok name table db ix :
  indexes (schema db) !! name = Some ix → ix_table ix = table →
  drop_index name table db = (inr tt, set_indexes (delete name) db).
Proof.
  intros Hix Ht. unfold drop_index, bind, get_state. rewrite Hix.
  rewrite bool_decide_eq_true_2 by exact Ht. reflexivity.
Qed.

Lemma create_index_ok name table cols unique db t :
  tables (schema db) !! table = Some t →
  indexes (schema db) !! name = None →
  unique_in cols (rows_of table db) →
  create_index name table cols unique db
  = (inr tt, set_indexes (insert name {| ix_table := table; ix_columns := cols;
                                         ix_unique := unique |}) db).
Proof.
  intros Ht Hn Hu. unfold create_index, bind, get_state. rewrite Ht, Hn.
  rewrite bool_decide_eq_true_2 by exact Hu. rewrite andb_false_r. reflexivity.
Qed.

Lemma drop_unique_constraint_ok name table db t cols :
  tables (schema db) !! table = Some t →
  unique_constraints t !! name = Some cols →
  drop_unique_constraint name table db
  = (inr tt, set_tables
               (insert table {| columns := columns t;
                                unique_constraints := delete name (unique_constraints t) |})
               db).
Proof.
  intros Ht Hc. unfold drop_unique_constraint, bind, get_state. rewrite Ht, Hc.
  reflexivity.
Qed.

Lemma drop_table_ok table db t :
  tables (schema db) !! table = Some t →
  drop_table table db
  = (inr tt, set_data (delete table)
               (set_indexes (filter (λ kv, ix_table kv.2 ≠ table))
                  (set_tables (delete table) db))).
Proof. intros Ht. unfold drop_table, bind, get_state. rewrite Ht. reflexivity. Qed.

Lemma drop_column_ok table col db t :
  tables (schema db) !! table = Some t →
  col ∈ col_name <$> columns t →
  fst (drop_column table col db) = inr tt.
Proof.
  intros Ht Hc. unfold drop_column, bind, get_state. rewrite Ht.
  rewrite bool_decide_eq_true_2 by exact Hc. reflexivity.
Qed.

(** On the upgraded schema [downgrade] goes through, provided the rows of
    [default_quota_association] still admit the unique index on [type]
    that it puts back. *)
Lemma downgrade_succeeds s quota db :
  restorable s quota →
  schema db = upgraded_schema s quota →
  unique_in ["type"] (rows_of "default_quota_association" db) →
  fst (downgrade db) = inr tt.
Proof.
  intros Hres Hs Hu.
  pose proof Hres as (Hq & Hcol & Hnone & _ & _ & _ & Hd & Hwf).
  destruct (Hwf _ _ Hd) as [tdqa Htd]. cbn in Htd.
  destruct db as [sch dat]. cbn in Hs. subst sch.
  unfold downgrade.
  erewrite bind_ok; cycle 1.
  { eapply drop_index_ok; cbn; [lookup_names; reflexivity | reflexivity]. }
  erewrite bind_ok; cycle 1.
  { eapply create_index_ok; cbn; [lookup_names; exact Htd | lookup_names; reflexivity
                                 | exact Hu]. }
  erewrite bind_ok; cycle 1.
  { eapply drop_unique_constraint_ok; cbn; lookup_names; [reflexivity |].
    cbn. lookup_names. reflexivity. }
  erewrite bind_ok; cycle 1.
  { eapply drop_table_ok; cbn; lookup_names; reflexivity. }
  eapply drop_column_ok; cbn; [lookup_names; reflexivity |].
  cbn. rewrite fmap_app. apply elem_of_app. right. left.
Qed.




End MigrationSpec.

(** * Further properties of the embedded code *)

Module VisualizationsUpdateSpec.
Import Visualizations.

Lemma py_or_idem {A} `{Truthy A} (a b : A) : py_or a (py_or a b) = py_or a b.
Proof. unfold py_or. destruct (truthy a); reflexivity. Qed.

Lemma set_title_set_deleted_id v :
  set_deleted (vis_deleted v) (set_title (vis_title v) v) = v.
Proof. destruct v; reflexivity. Qed.

Section Update.
Variable sanitize_html : string → string.
Variable json_dumps : option Config → string.
Variable security_check : Trans → Visualization → bool → bool → option Exn.

Local Abbreviation update := (Visualizations.update sanitize_html json_dumps security_check).
Local Abbreviation validate := (_validate_and_parse_payload sanitize_html).

(** What [update] compares is unchanged when the values are the latest
    revision's own. *)
Lemma content_changed_same (r : VisualizationRevision) :
  content_changed json_dumps (rev_title r) (rev_dbkey r) (rev_config r) r = false.
Proof.
  unfold content_changed.
  rewrite !bool_decide_eq_false_2 by (intros H; apply H; reflexivity). reflexivity.
Qed.

(** A call that raises has changed nothing. *)
Lemma update_failure_unchanged trans vid payload s e s' :
  update trans vid payload s = (inl e, s') → s' = s.
Proof.
  unfold Visualizations.update, _get_visualization, latest_revision_of, bind, get_state.
  destruct (visualization_table s !! vid) as [v|]; [| intros [= _ <-]; reflexivity].
  destruct (security_check trans v true false); [intros [= _ <-]; reflexivity |].
  unfold ret at 1.
  destruct (latest_revision v) as [latest|]; [| intros [= _ <-]; reflexivity].
  unfold ret at 1.
  destruct (content_changed _ _ _ _ _); discriminate.
Qed.

(** [update] leaves the session exactly as it is, and returns [None], when
    the effective title, dbkey and config do not differ from the latest
    revision's and the visualization already has the effective title and
    [deleted] flag. *)
Lemma update_noop trans vid payload s v latest :
  visualization_table s !! vid = Some v →
  vis_id v = vid →
  security_check trans v true false = None →
  latest_revision v = Some latest →
  let p := validate payload in
  content_changed json_dumps (py_or (p_title p) (rev_title latest))
    (py_or (p_dbkey p) (rev_dbkey latest)) (py_or (p_config p) (rev_config latest))
    latest = false →
  vis_title v = py_or (p_title p) (rev_title latest) →
  vis_deleted v = py_or (p_deleted p) (vis_deleted v) →
  update trans vid payload s = (inr None, s).
Proof.
  intros Hv Hid Hsec Hlat p Hc Ht Hd.
  rewrite (VisualizationsSpec.update_unfold _ _ _ _ _ _ _ _ _ Hv Hsec Hlat). cbv zeta.
  fold p. rewrite Hc, <- Ht, <- Hd, set_title_set_deleted_id.
  f_equal. unfold store_visualization. rewrite Hid, (insert_id _ _ _ Hv).
  destruct s; reflexivity.
Qed.

(** X1.  Repeating an [update] call with the same payload, one that
    carries no config (none, or an empty one), changes nothing more: the
    second call makes no revision, returns [None] and leaves the session
    as the first call left it (the ownership check is assumed to pass
    again on the updated visualization).  The second call compares the
    latest revision's config with itself. *)
Theorem update_twice_same_as_once
    (trans : Trans) (visualization_id : Z) (payload : VisualizationUpdatePayload)
    (s : Session) (v : Visualization) (latest : VisualizationRevision) :
  visualization_table s !! visualization_id = Some v →
  vis_id v = visualization_id →
  security_check trans v true false = None →
  latest_revision v = Some latest →
  truthy (p_config payload) = false →
  let s1 := snd (update trans visualization_id payload s) in
  (∀ v1, visualization_table s1 !! visualization_id = Some v1 →
         security_check trans v1 true false = None) →
  update trans visualization_id payload s1 = (inr None, s1).
Proof.
  intros Hv Hid Hsec Hlat Hnoconfig. cbv zeta.
  rewrite (VisualizationsSpec.update_unfold _ _ _ _ _ _ _ _ _ Hv Hsec Hlat). cbv zeta.
  set (p := validate payload).
  set (t := py_or (p_title p) (rev_title latest)).
  set (k := py_or (p_dbkey p) (rev_dbkey latest)).
  set (c := py_or (p_config p) (rev_config latest)).
  set (d := py_or (p_deleted p) (vis_deleted v)).
  destruct (content_changed json_dumps t k c latest) eqn:Hc; cbn [snd]; intros Hsec1.
  - set (new := {| rev_id := next_revision_id s; rev_visualization_id := vis_id v;
                   rev_title := t; rev_dbkey := k; rev_config := c |}).
    set (v1 := set_deleted d (set_title t (set_latest_revision new v))).
    assert (Hv1 : visualization_table
                    (store_visualization v1
                       (store_visualization (set_latest_revision new v) (bump_revision_id s)))
                  !! visualization_id = Some v1).
    { cbn. rewrite Hid. apply lookup_insert_eq. }
    apply (update_noop _ _ _ _ v1 new Hv1 Hid (Hsec1 _ Hv1) eq_refl); fold p; cbn.
    + fold t k c. unfold t at 1, k at 1, c at 1.
      rewrite !py_or_idem. apply (content_changed_same new).
    + unfold t at 2. rewrite py_or_idem. reflexivity.
    + unfold d at 2. rewrite py_or_idem. reflexivity.
  - set (v1 := set_deleted d (set_title t v)).
    assert (Hv1 : visualization_table (store_visualization v1 s) !! visualization_id
                  = Some v1).
    { cbn. rewrite Hid. apply lookup_insert_eq. }
    apply (update_noop _ _ _ _ v1 latest Hv1 Hid (Hsec1 _ Hv1) Hlat); fold p; cbn.
    + exact Hc.
    + reflexivity.
    + unfold d at 2. rewrite py_or_idem. reflexivity.
Qed.

(** X2.  [update] only ever appends to a visualization's revisions: after
    any call (successful or not) the visualization is still in the session
    under its id, its revisions are the old ones, followed by at most one
    new revision, which then is the latest and carries the next revision
    id; if the latest revision was the last of the list before, it is
    afterwards.  The visualization's id, user, type, slug, importable flag
    and its own dbkey are never changed. *)
Theorem update_revisions_append_only
    (trans : Trans) (visualization_id : Z) (payload : VisualizationUpdatePayload)
    (s : Session) (v : Visualization) :
  visualization_table s !! visualization_id = Some v →
  vis_id v = visualization_id →
  ∃ v', visualization_table (snd (update trans visualization_id payload s))
          !! visualization_id = Some v'
    ∧ (revisions v' = revisions v ∧ latest_revision v' = latest_revision v
       ∨ ∃ new, revisions v' = revisions v ++ [new]
                ∧ latest_revision v' = Some new
                ∧ rev_id new = next_revision_id s
                ∧ rev_visualization_id new = visualization_id)
    ∧ (latest_revision v = last (revisions v) →
       latest_revision v' = last (revisions v'))
    ∧ vis_id v' = vis_id v ∧ vis_user v' = vis_user v ∧ vis_type v' = vis_type v
    ∧ vis_slug v' = vis_slug v ∧ vis_importable v' = vis_importable v
    ∧ vis_dbkey v' = vis_dbkey v.
Proof.
  intros Hv Hid.
  assert (Hsame : ∃ v', visualization_table s !! visualization_id = Some v'
    ∧ (revisions v' = revisions v ∧ latest_revision v' = latest_revision v
       ∨ ∃ new, revisions v' = revisions v ++ [new]
                ∧ latest_revision v' = Some new
                ∧ rev_id new = next_revision_id s
                ∧ rev_visualization_id new = visualization_id)
    ∧ (latest_revision v = last (revisions v) →
       latest_revision v' = last (revisions v'))
    ∧ vis_id v' = vis_id v ∧ vis_user v' = vis_user v ∧ vis_type v' = vis_type v
    ∧ vis_slug v' = vis_slug v ∧ vis_importable v' = vis_importable v
    ∧ vis_dbkey v' = vis_dbkey v).
  { exists v. repeat split; auto. }
  destruct (security_check trans v true false) as [e|] eqn:Hsec.
  { unfold Visualizations.update, _get_visualization, bind, get_state.
    rewrite Hv, Hsec. exact Hsame. }
  destruct (latest_revision v) as [latest|] eqn:Hlat.
  2:{ unfold Visualizations.update, _get_visualization, latest_revision_of,
        bind, get_state.
      rewrite Hv, Hsec. unfold ret at 1. rewrite Hlat. exact Hsame. }
  clear Hsame.
  rewrite (VisualizationsSpec.update_unfold _ _ _ _ _ _ _ _ _ Hv Hsec Hlat). cbv zeta.
  destruct (content_changed _ _ _ _ _).
  - eexists. split; [cbn; rewrite Hid; apply lookup_insert_eq |]. cbn.
    split; [right; eexists; split; [reflexivity |]; split; [reflexivity |];
            split; [reflexivity | first [reflexivity | exact Hid]] |].
    split; [intros _; rewrite last_snoc; reflexivity |]. repeat split.
  - eexists. split; [cbn; rewrite Hid; apply lookup_insert_eq |]. cbn.
    split; [left; split; [reflexivity | exact Hlat] |].
    split; [intros H; rewrite <- H; exact Hlat |]. repeat split.
Qed.

(** X3.  An [update] call that raises leaves the session untouched, and it
    raises only for one of three reasons: no visualization has the id
    ([ObjectNotFound]), the ownership check rejects the caller (its
    exception), or the visualization has no latest revision.  A call that
    succeeds touches no other visualization than the one updated and
    hands out no visualization id. *)
Theorem update_failure_and_frame
    (trans : Trans) (visualization_id : Z) (payload : VisualizationUpdatePayload)
    (s : Session) :
  (∀ e s', update trans visualization_id payload s = (inl e, s') →
     s' = s
     ∧ (visualization_table s !! visualization_id = None
        ∧ e = ObjectNotFound "Visualization not found"
        ∨ ∃ v, visualization_table s !! visualization_id = Some v
               ∧ (security_check trans v true false = Some e
                  ∨ security_check trans v true false = None
                    ∧ latest_revision v = None)))
  ∧ ((∀ v, visualization_table s !! visualization_id = Some v →
           vis_id v = visualization_id) →
     (∀ other, other ≠ visualization_id →
        visualization_table (snd (update trans visualization_id payload s)) !! other
        = visualization_table s !! other)
     ∧ next_visualization_id (snd (update trans visualization_id payload s))
       = next_visualization_id s).
Proof.
  split.
  - intros e s' H. split; [exact (update_failure_unchanged _ _ _ _ _ _ H) |].
    revert H.
    unfold Visualizations.update, _get_visualization, latest_revision_of, bind, get_state.
    destruct (visualization_table s !! visualization_id) as [v|] eqn:Hv.
    2:{ intros [= <- _]. left. auto. }
    destruct (security_check trans v true false) as [e0|] eqn:Hsec.
    { intros [= <- _]. right. exists v. auto. }
    unfold ret at 1.
    destruct (latest_revision v) as [latest|] eqn:Hlat.
    2:{ intros _. right. exists v. auto. }
    unfold ret at 1. destruct (content_changed _ _ _ _ _); discriminate.
  - intros Hkey.
    destruct (update trans visualization_id payload s) as [[e|r] s'] eqn:E; cbn [snd].
    { apply update_failure_unchanged in E as ->. auto. }
    destruct (visualization_table s !! visualization_id) as [v|] eqn:Hv.
    2:{ exfalso. revert E.
        unfold Visualizations.update, _get_visualization, bind, get_state.
        rewrite Hv. discriminate. }
    specialize (Hkey v eq_refl).
    destruct (security_check trans v true false) as [e|] eqn:Hsec.
    { exfalso. revert E.
      unfold Visualizations.update, _get_visualization, bind, get_state.
      rewrite Hv, Hsec. discriminate. }
    destruct (latest_revision v) as [latest|] eqn:Hlat.
    2:{ exfalso. revert E.
        unfold Visualizations.update, _get_visualization, latest_revision_of,
          bind, get_state.
        rewrite Hv, Hsec. unfold ret at 1. rewrite Hlat. discriminate. }
    rewrite (VisualizationsSpec.update_unfold _ _ _ _ _ _ _ _ _ Hv Hsec Hlat) in E.
    cbv zeta in E.
    destruct (content_changed _ _ _ _ _); injection E as <- <-; cbn; rewrite Hkey;
      (split; [| reflexivity]); intros other Hne;
      rewrite !lookup_insert_ne by congruence; reflexivity.
Qed.

End Update.

(** Witness of X1: Alice retitles her visualization 7 twice, sending no
    config. *)
Lemma update_twice_same_as_once_witness :
  update (λ x, x) dumps_config owner_security_check as_alice 7
    (with_title (Some "plot, revised") payload_none)
    (snd (update (λ x, x) dumps_config owner_security_check as_alice 7
            (with_title (Some "plot, revised") payload_none) session0))
  = (inr None,
     snd (update (λ x, x) dumps_config owner_security_check as_alice 7
            (with_title (Some "plot, revised") payload_none) session0)).
Proof.
  apply (update_twice_same_as_once (λ x, x) dumps_config owner_security_check
           as_alice 7 (with_title (Some "plot, revised") payload_none) session0
           vis7 rev1 eq_refl eq_refl eq_refl eq_refl eq_refl).
  intros v1 Hv1. vm_compute in Hv1. injection Hv1 as <-. reflexivity.
Defined.

(** Witness of X2: Alice changes the dbkey of her visualization 7. *)
Lemma update_revisions_append_only_witness :
  ∃ v', visualization_table
          (snd (update (λ x, x) dumps_config owner_security_check as_alice 7
                  (with_dbkey (Some "hg38") payload_none) session0)) !! 7 = Some v'
        ∧ vis_dbkey v' = vis_dbkey vis7.
Proof.
  destruct (update_revisions_append_only (λ x, x) dumps_config owner_security_check
              as_alice 7 (with_dbkey (Some "hg38") payload_none) session0 vis7
              eq_refl eq_refl) as (v' & Hv' & _ & _ & _ & _ & _ & _ & _ & Hk).
  exists v'. split; [exact Hv' | exact Hk].
Defined.

(** Witness of X3: Bob tries to update Alice's visualization 7. *)
Lemma update_failure_and_frame_witness :
  snd (update (λ x, x) dumps_config owner_security_check as_bob 7
         (with_title (Some "mine now") payload_none) session0) = session0.
Proof.
  destruct (update_failure_and_frame (λ x, x) dumps_config owner_security_check
              as_bob 7 (with_title (Some "mine now") payload_none) session0)
    as [H _].
  destruct (update (λ x, x) dumps_config owner_security_check as_bob 7
              (with_title (Some "mine now") payload_none) session0)
    as [[e|r] s'] eqn:E.
  - exact (proj1 (H e s' eq_refl)).
  - vm_compute in E. discriminate E.
Defined.

End VisualizationsUpdateSpec.

Module VisualizationPayloadsSpec.
Import Visualizations VisualizationPayloads.

Section Validation.
Variable sanitize_html : string → string.

Local Abbreviation validate_item := (VisualizationPayloads.validate_item sanitize_html).
Local Abbreviation validate_items := (VisualizationPayloads.validate_items sanitize_html).
Local Abbreviation validated_value := (VisualizationPayloads.validated_value sanitize_html).

(** Membership of a literal in a list of literals, and its negation for a
    name known to differ from each of them. *)
Ltac literal_in := apply (bool_decide_unpack _); vm_compute; exact I.
Ltac not_in_literals :=
  rewrite ?elem_of_cons, elem_of_nil; intuition congruence.

(** What one round of the loop does with an item, by cases. *)
Lemma validate_item_cases key val :
  match validate_item key val with
  | inl e => well_typed key val = false ∧ ∃ msg, e = RequestParameterInvalidException msg
  | inr None => well_typed key val = true ∧ (val = PyNone ∨ key ∉ stored_keys)
  | inr (Some val') =>
      well_typed key val = true ∧ key ∈ stored_keys ∧ val' ≠ PyNone ∧ val ≠ PyNone
  end.
Proof.
  destruct val; [cbn; auto | ..];
    unfold VisualizationPayloads.validate_item, well_typed, sanitized_str, ValidationError;
    (destruct (String.eqb_spec key "type") as [->|?];
       [cbn; repeat split; eauto; try discriminate; literal_in |]);
    (destruct (String.eqb_spec key "config") as [->|?];
       [cbn; repeat split; eauto; try discriminate; literal_in |]);
    (destruct (String.eqb_spec key "annotation") as [->|?];
       [cbn; repeat split; eauto; try discriminate; literal_in |]);
    (destruct (String.eqb_spec key "deleted") as [->|?];
       [cbn; repeat split; eauto; try discriminate; literal_in |]);
    (destruct (String.eqb_spec key "title") as [->|?];
       [cbn; repeat split; eauto; try discriminate; literal_in |]);
    (destruct (String.eqb_spec key "slug") as [->|?];
       [cbn; repeat split; eauto; try discriminate; literal_in |]);
    (destruct (String.eqb_spec key "dbkey") as [->|?];
       [cbn; repeat split; eauto; try discriminate; literal_in |]);
    (destruct (decide (key = "id")) as [->|?];
       [cbn; repeat split; eauto; try discriminate; literal_in |]);
    (destruct (decide (key = "model_class")) as [->|?];
       [cbn; repeat split; eauto; try discriminate; literal_in |]);
    rewrite (bool_decide_eq_false_2 (key ∈ valid_but_uneditable_keys))
      by (unfold valid_but_uneditable_keys; not_in_literals);
    rewrite (bool_decide_eq_false_2 (key ∈ _)) by not_in_literals;
    cbn; (split; [reflexivity |]); right; unfold stored_keys; not_in_literals.
Qed.

(** The loop, started from any dictionary. *)
Lemma validate_items_spec items : ∀ acc,
  match validate_items items acc with
  | inl e =>
      (∃ key val, (key, val) ∈ items ∧ well_typed key val = false)
      ∧ ∃ msg, e = RequestParameterInvalidException msg
  | inr d =>
      (∀ key val, (key, val) ∈ items → well_typed key val = true)
      ∧ ∀ key val, d !! key = Some val →
          acc !! key = Some val
          ∨ key ∈ stored_keys ∧ val ≠ PyNone ∧ ∃ val0, (key, val0) ∈ items
  end.
Proof.
  induction items as [|[key val] items IH]; intros acc; cbn.
  - split; [intros k v []%elem_of_nil | auto].
  - pose proof (validate_item_cases key val) as Hc.
    destruct (validate_item key val) as [e|[val'|]].
    + destruct Hc as [Hw Hmsg]. split; [| exact Hmsg].
      exists key, val. split; [left | exact Hw].
    + destruct Hc as (Hw & Hk & Hn & _).
      specialize (IH (<[key := val']> acc)).
      destruct (validate_items items (<[key := val']> acc)) as [e|d].
      * destruct IH as [(k & v & Hin & Hb) Hmsg]. split; [| exact Hmsg].
        exists k, v. split; [right; exact Hin | exact Hb].
      * destruct IH as [Hall Hd]. split.
        -- intros k v [[= -> ->]|Hin]%elem_of_cons; [exact Hw | eauto].
        -- intros k v Hkv. destruct (Hd k v Hkv) as [Hacc|(Hs & Hv & v0 & Hin)].
           ++ apply lookup_insert_Some in Hacc as [[<- <-]|[_ Hacc]]; [| auto].
              right. split; [exact Hk |]. split; [exact Hn |].
              exists val. left.
           ++ right. split; [exact Hs |]. split; [exact Hv |]. exists v0. right. exact Hin.
    + destruct Hc as [Hw _].
      specialize (IH acc).
      destruct (validate_items items acc) as [e|d].
      * destruct IH as [(k & v & Hin & Hb) Hmsg]. split; [| exact Hmsg].
        exists k, v. split; [right; exact Hin | exact Hb].
      * destruct IH as [Hall Hd]. split.
        -- intros k v [[= -> ->]|Hin]%elem_of_cons; [exact Hw | eauto].
        -- intros k v Hkv. destruct (Hd k v Hkv) as [Hacc|(Hs & Hv & v0 & Hin)]; [auto |].
           right. split; [exact Hs |]. split; [exact Hv |]. exists v0. right. exact Hin.
Qed.

(** The value one round of the loop stores. *)
Lemma validate_item_value key val val' :
  validate_item key val = inr (Some val') → val' = validated_value key val.
Proof.
  destruct val; [discriminate | ..];
    unfold VisualizationPayloads.validate_item, sanitized_str, ValidationError;
    (destruct (String.eqb_spec key "type") as [->|?];
       [vm_compute; first [discriminate | intros [= <-]; reflexivity] |]);
    (destruct (String.eqb_spec key "config") as [->|?];
       [vm_compute; first [discriminate | intros [= <-]; reflexivity] |]);
    (destruct (String.eqb_spec key "annotation") as [->|?];
       [vm_compute; first [discriminate | intros [= <-]; reflexivity] |]);
    (destruct (String.eqb_spec key "deleted") as [->|?];
       [vm_compute; first [discriminate | intros [= <-]; reflexivity] |]);
    (destruct (String.eqb_spec key "title") as [->|?];
       [vm_compute; first [discriminate | intros [= <-]; reflexivity] |]);
    (destruct (String.eqb_spec key "slug") as [->|?];
       [vm_compute; first [discriminate | intros [= <-]; reflexivity] |]);
    (destruct (String.eqb_spec key "dbkey") as [->|?];
       [vm_compute; first [discriminate | intros [= <-]; reflexivity] |]);
    (destruct (decide (key = "id")) as [->|?];
       [vm_compute; first [discriminate | intros [= <-]; reflexivity] |]);
    (destruct (decide (key = "model_class")) as [->|?];
       [vm_compute; first [discriminate | intros [= <-]; reflexivity] |]);
    rewrite (bool_decide_eq_false_2 (key ∈ valid_but_uneditable_keys))
      by (unfold valid_but_uneditable_keys; not_in_literals);
    discriminate.
Qed.

(** The loop on items with distinct keys, started from any dictionary:
    a key with no item keeps what it had, a key with an item has what the
    item's round stored, or keeps what it had when the round stored
    nothing. *)
Lemma validate_items_values items : ∀ acc d,
  validate_items items acc = inr d →
  NoDup items.*1 →
  (∀ key, key ∉ items.*1 → d !! key = acc !! key)
  ∧ (∀ key val, (key, val) ∈ items →
       d !! key = match validate_item key val with
                  | inr (Some val') => Some val'
                  | _ => acc !! key
                  end).
Proof.
  induction items as [|[k v] items IH]; intros acc d; cbn.
  - intros [= <-] _. split; [auto | intros key val []%elem_of_nil].
  - intros H Hnd. apply NoDup_cons in Hnd as [Hk Hnd].
    assert (Hother : ∀ key val, (key, val) ∈ items → key ≠ k).
    { intros key val Hin <-. apply Hk. apply list_elem_of_fmap. exists (key, val). auto. }
    destruct (validate_item k v) as [e|[v'|]] eqn:Hkv; [discriminate | |];
      destruct (IH _ _ H Hnd) as [Hout Hin]; split.
    + intros key Hkey. apply not_elem_of_cons in Hkey as [Hne Hkey].
      rewrite (Hout key Hkey). apply lookup_insert_ne. congruence.
    + intros key val [[= -> ->]|Hin']%elem_of_cons.
      * rewrite Hkv, (Hout k Hk). apply lookup_insert_eq.
      * rewrite (Hin key val Hin').
        pose proof (Hother key val Hin') as Hne.
        destruct (validate_item key val) as [?|[?|]]; try reflexivity;
          apply lookup_insert_ne; congruence.
    + intros key Hkey. apply not_elem_of_cons in Hkey as [Hne Hkey].
      apply (Hout key Hkey).
    + intros key val [[= -> ->]|Hin']%elem_of_cons.
      * rewrite Hkv. apply (Hout k Hk).
      * apply (Hin key val Hin').
Qed.

(** X5.  When the validation loop goes through on the items of a dumped
    payload (the items of a dictionary: no key twice), the validated
    dictionary holds, for every item with a known key and a value that is
    not [None], the value the loop kept: sanitized with [sanitize_html]
    under type, annotation, title, slug and dbkey, as it was under config,
    deleted, id and model_class.  It holds nothing under the key of an
    item whose value is [None] or whose key is unknown. *)
Theorem validation_stores_sanitized_values
    (items : list (string * PyVal)) (d : gmap string PyVal) :
  NoDup items.*1 →
  validate_items items ∅ = inr d →
  ∀ key val, (key, val) ∈ items →
    (val = PyNone ∨ key ∉ stored_keys → d !! key = None)
    ∧ (val ≠ PyNone → key ∈ stored_keys → d !! key = Some (validated_value key val)).
Proof.
  intros Hnd Hd key val Hin.
  destruct (validate_items_values items ∅ d Hd Hnd) as [_ Hval].
  specialize (Hval key val Hin). rewrite lookup_empty in Hval.
  pose proof (validate_items_spec items ∅) as Hspec. rewrite Hd in Hspec.
  destruct Hspec as [Htyped _]. specialize (Htyped key val Hin).
  pose proof (validate_item_cases key val) as Hc.
  pose proof (validate_item_value key val) as Hv.
  destruct (validate_item key val) as [e|[val'|]].
  - destruct Hc as [Hw _]. rewrite Htyped in Hw. discriminate.
  - destruct Hc as (_ & Hk & _ & Hn). split.
    + intros [->|Hnk]; contradiction.
    + intros _ _. rewrite Hval, (Hv val' eq_refl). reflexivity.
  - destruct Hc as [_ Hc]. split; [intros _; exact Hval |].
    intros Hn Hk. destruct Hc as [->|Hnk]; contradiction.
Qed.

(** X6.  The validation loop raises exactly when some item has a value of
    the wrong type for its key (a string for type, annotation, title, slug
    and dbkey, a dictionary for config, a bool for deleted), and then it
    raises [RequestParameterInvalidException].  Otherwise it succeeds;
    [None] values and unknown keys are dropped silently, so every key of
    the validated dictionary is one of the nine known keys, comes from the
    items, and has a value that is not [None]. *)
Theorem validation_rejects_only_wrong_types (items : list (string * PyVal)) :
  ((∃ key val, (key, val) ∈ items ∧ well_typed key val = false) →
   ∃ msg, validate_items items ∅ = inl (RequestParameterInvalidException msg))
  ∧ ((∀ key val, (key, val) ∈ items → well_typed key val = true) →
     ∃ d, validate_items items ∅ = inr d
          ∧ ∀ key val, d !! key = Some val →
              key ∈ stored_keys ∧ val ≠ PyNone ∧ ∃ val0, (key, val0) ∈ items).
Proof.
  pose proof (validate_items_spec items ∅) as H.
  destruct (validate_items items ∅) as [e|d].
  - destruct H as [(k & v & Hin & Hb) [msg ->]]. split; [eauto |].
    intros Hall. rewrite (Hall k v Hin) in Hb. discriminate.
  - destruct H as [Hall Hd]. split.
    + intros (k & v & Hin & Hb). rewrite (Hall k v Hin) in Hb. discriminate.
    + intros _. exists d. split; [reflexivity |].
      intros k v Hkv. destruct (Hd k v Hkv) as [Hacc|H]; [| exact H].
      rewrite lookup_empty in Hacc. discriminate.
Qed.

End Validation.

(** Witness of X6: a title that is a number is rejected; an unknown key
    and a [None] are dropped. *)
Lemma validation_rejects_only_wrong_types_witness :
  (∃ msg, validate_items (λ x, x) [("dbkey", PyStr "hg19"); ("title", PyInt 3)] ∅
          = inl (RequestParameterInvalidException msg))
  ∧ ∃ d, validate_items (λ x, x)
           [("save", PyBool true); ("title", PyNone); ("dbkey", PyStr "hg19")] ∅ = inr d
         ∧ ∀ key val, d !! key = Some val → key ∈ stored_keys.
Proof.
  split.
  - apply (validation_rejects_only_wrong_types (λ x, x)).
    exists "title", (PyInt 3). split; [| reflexivity].
    apply elem_of_cons. right. apply elem_of_cons. left. reflexivity.
  - destruct (validation_rejects_only_wrong_types (λ x, x)
                [("save", PyBool true); ("title", PyNone); ("dbkey", PyStr "hg19")])
      as [_ H].
    destruct H as (d & Hd & Hkeys).
    + intros key val Hin.
      repeat (apply elem_of_cons in Hin as [[= -> ->]|Hin]; [reflexivity |]).
      apply elem_of_nil in Hin. contradiction.
    + exists d. split; [exact Hd |]. intros key val Hkv. apply (Hkeys key val Hkv).
Defined.

(** Witness of X5: a title is stored sanitized; the sanitizer here
    answers "safe" whatever it is given. *)
Lemma validation_stores_sanitized_values_witness :
  ∃ d, validate_items (λ _, "safe")
         [("title", PyStr "<b>plot</b>"); ("deleted", PyBool true); ("slug", PyNone)] ∅
       = inr d
       ∧ d !! "title" = Some (PyStr "safe").
Proof.
  exists (<["deleted" := PyBool true]> (<["title" := PyStr "safe"]> ∅)).
  split; [reflexivity |].
  apply (validation_stores_sanitized_values (λ _, "safe")
           [("title", PyStr "<b>plot</b>"); ("deleted", PyBool true); ("slug", PyNone)]
           (<["deleted" := PyBool true]> (<["title" := PyStr "safe"]> ∅))
           ltac:(apply (bool_decide_unpack _); vm_compute; exact I)
           eq_refl "title" (PyStr "<b>plot</b>")).
  - apply elem_of_cons. left. reflexivity.
  - discriminate.
  - apply (bool_decide_unpack _). vm_compute. exact I.
Defined.

Section Index.
Variable Payload Entry Summary : Type.
Variable payload_user_id : Payload → option Z.
Variable index_query : Trans → Payload → bool → list Entry * Z.
Variable to_dict : Entry → Summary.

Local Abbreviation index :=
  (VisualizationPayloads.index Payload Entry Summary payload_user_id index_query to_dict).

(** X7.  [index] refuses a query with [AdminRequiredException] exactly when
    the caller is no administrator and the payload filters on a user id
    (set and non-zero) that is not the caller's own, an anonymous caller
    having none.  In every other case it returns the manager's entries,
    each turned into its dictionary in the same order, and the manager's
    total. *)
Theorem index_only_admins_see_others
    (trans : Trans) (payload : Payload) (include_total_count : bool) :
  let others := user_is_admin trans = false
                ∧ truthy (payload_user_id payload) = true
                ∧ payload_user_id payload ≠ (user_id <$> trans_user trans) in
  (others →
   index trans payload include_total_count
   = inl (AdminRequiredException "Only admins can index the visualizations of others"))
  ∧ (¬ others →
     index trans payload include_total_count
     = inr (to_dict <$> (index_query trans payload include_total_count).1,
            (index_query trans payload include_total_count).2)).
Proof.
  cbv zeta. unfold VisualizationPayloads.index. split.
  - intros (-> & -> & Hne). cbn. rewrite bool_decide_eq_true_2 by exact Hne. reflexivity.
  - intros Hn.
    destruct (user_is_admin trans); cbn.
    + destruct (index_query _ _ _); reflexivity.
    + destruct (truthy (payload_user_id payload)) eqn:Ht; cbn.
      * rewrite bool_decide_eq_false_2 by (intros Hne; apply Hn; auto).
        destruct (index_query _ _ _); reflexivity.
      * destruct (index_query _ _ _); reflexivity.
Qed.

End Index.

(** Witness of X7: Bob asks for the visualizations of user 1. *)
Lemma index_only_admins_see_others_witness :
  index (option Z) Visualization Z (λ p, p) (λ _ _ _, ([vis7], 1)) vis_id
    as_bob (Some 1) false
  = inl (AdminRequiredException "Only admins can index the visualizations of others").
Proof.
  apply (index_only_admins_see_others (option Z) Visualization Z (λ p, p)
           (λ _ _ _, ([vis7], 1)) vis_id as_bob (Some 1) false).
  split; [reflexivity |]. split; [reflexivity | discriminate].
Defined.

Section Importing.
Variable security_check : Trans → Visualization → bool → bool → option Exn.
Variable visualization_copy : Visualization → User → string → Visualization.

Local Abbreviation import_visualization :=
  (_import_visualization security_check visualization_copy).

(** X4.  A logged-in caller who imports a visualization that is found,
    importable and not deleted gets the copy made for them with the title
    ["imported: " + title]: it is stored under the next visualization id
    and returned with the user, title, type, dbkey, slug and flags of the
    copy, a lookup of that id finds it, and no other visualization of the
    session (the original included, whose id is in use already) is
    touched. *)
Theorem import_visualization_stores_copy
    (trans : Trans) (visualization_id : Z) (s : Session) (user : User)
    (v : Visualization) :
  trans_user trans = Some user →
  visualization_table s !! visualization_id = Some v →
  security_check trans v false false = None →
  truthy (vis_importable v) = true →
  truthy (vis_deleted v) = false →
  let copy := visualization_copy v user ("imported: " +:+ py_str (vis_title v)) in
  let result := import_visualization trans visualization_id s in
  ∃ imported,
    fst result = inr imported
    ∧ vis_id imported = next_visualization_id s
    ∧ (vis_user imported, vis_title imported, vis_type imported, vis_dbkey imported,
       vis_slug imported, vis_deleted imported, vis_importable imported)
      = (vis_user copy, vis_title copy, vis_type copy, vis_dbkey copy,
         vis_slug copy, vis_deleted copy, vis_importable copy)
    ∧ visualization_table (snd result) !! next_visualization_id s = Some imported
    ∧ next_visualization_id (snd result) = next_visualization_id s + 1
    ∧ (∀ other, other ≠ next_visualization_id s →
         visualization_table (snd result) !! other = visualization_table s !! other)
    ∧ (security_check trans imported false false = None →
       _get_visualization security_check trans (next_visualization_id s) false false
         (snd result)
       = (inr imported, snd result)).
Proof.
  intros Hu Hv Hsec Hi Hd. cbv zeta.
  set (copy := visualization_copy v user ("imported: " +:+ py_str (vis_title v))).
  set (imported :=
         {| vis_id := next_visualization_id s; vis_user := vis_user copy;
            vis_title := vis_title copy; vis_type := vis_type copy;
            vis_dbkey := vis_dbkey copy; vis_slug := vis_slug copy;
            vis_deleted := vis_deleted copy; vis_importable := vis_importable copy;
            latest_revision := latest_revision copy; revisions := revisions copy |}).
  assert (E : import_visualization trans visualization_id s
              = (inr imported, store_visualization imported (bump_visualization_id s))).
  { unfold _import_visualization. rewrite Hu.
    unfold bind at 1, _get_visualization, bind, get_state. rewrite Hv, Hsec.
    unfold ret at 1. rewrite Hi, Hd. reflexivity. }
  rewrite E. exists imported. cbn.
  split; [reflexivity |]. split; [reflexivity |]. split; [reflexivity |].
  split; [apply lookup_insert_eq |]. split; [reflexivity |].
  split.
  - intros other Hne. apply lookup_insert_ne. congruence.
  - intros Hsec'. unfold _get_visualization, bind, get_state. cbn.
    rewrite lookup_insert_eq, Hsec'. reflexivity.
Qed.

End Importing.

(** Witness of X4: Bob imports Alice's visualization 7. *)
Lemma import_visualization_stores_copy_witness :
  ∃ imported,
    fst (_import_visualization owner_security_check plain_copy as_bob 7 session0)
    = inr imported
    ∧ vis_id imported = 10
    ∧ vis_title imported = Some "imported: plot".
Proof.
  destruct (import_visualization_stores_copy owner_security_check plain_copy
              as_bob 7 session0 bob vis7 eq_refl eq_refl eq_refl eq_refl eq_refl)
    as (imported & Hr & Hid & Hf & _).
  exists imported. split; [exact Hr |]. split; [exact Hid |].
  injection Hf as _ Ht _ _ _ _ _. exact Ht.
Defined.

End VisualizationPayloadsSpec.

Module ChatMoreSpec.
Import Chat.

(** X8.  The message array sent to OpenAI always has exactly three
    entries, in this order: the system prompt (the configured
    [tool_error] prompt, or [DEFAULT_PROMPT] when none is configured), the
    user's query unchanged, and a system message that says how to address
    the user; it names the user, or "Anonymous User" when nobody is logged
    in, and is never left out, even for an empty user name. *)
Theorem build_messages_shape
    (config : GalaxyAppConfiguration) (payload : ChatPayload) (trans : Trans) :
  _build_messages config payload trans
  = [ {| msg_role := "system";
         msg_content := default DEFAULT_PROMPT (chat_prompts config !! "tool_error") |};
      {| msg_role := "user"; msg_content := payload_query payload |};
      {| msg_role := "system";
         msg_content :=
           "You will address the user as "
           +:+ match trans_user trans with
               | Some user => username user
               | None => "Anonymous User"
               end |} ].
Proof.
  unfold _build_messages, _get_system_prompt, _get_user_context_message.
  destruct (trans_user trans) as [user|]; reflexivity.
Qed.

Section Query.
Variable ChatStore : Type.
Variable chat_manager_get : ChatStore → Trans → Z → option ChatExchange.
Variable chat_manager_create : ChatStore → Trans → Z → string → ChatStore.
Variable openai_installed : bool.
Variable openai_create : string → list Message → option (list string).
Variable config : GalaxyAppConfiguration.

Local Abbreviation query :=
  (Chat.query ChatStore chat_manager_get chat_manager_create openai_installed
     openai_create config).
Local Abbreviation after_call := (Chat.after_call ChatStore config).
Local Abbreviation after_create := (Chat.after_create ChatStore chat_manager_create).

(** Every outcome of [query], by cases. *)
Lemma query_cases job_id payload trans w :
  let msgs := _build_messages config payload trans in
  (* a stored response: its first message, or an [IndexError] *)
  (∃ job existing,
     job_id_set job_id = Some job
     ∧ chat_manager_get (chat_store _ w) trans job = Some existing
     ∧ snd (query job_id payload trans w) = w
     ∧ match messages existing with
       | first :: _ => fst (query job_id payload trans w) = inr (message first)
       | [] => ∃ msg, fst (query job_id payload trans w) = inl (IndexError msg)
       end)
  (* nothing stored, and OpenAI is not installed or not configured *)
  ∨ (Chat.nothing_stored _ chat_manager_get job_id trans w
     ∧ (openai_installed = false ∨ openai_api_key config = None)
     ∧ ∃ msg, query job_id payload trans w = (inl (ConfigurationError msg), w))
  (* nothing stored, one request sent, no answer *)
  ∨ (Chat.nothing_stored _ chat_manager_get job_id trans w
     ∧ ∃ key e, openai_api_key config = Some key
                ∧ query job_id payload trans w = (inl e, after_call key msgs w))
  (* nothing stored, one request sent, the answer stored for the job *)
  ∨ (Chat.nothing_stored _ chat_manager_get job_id trans w
     ∧ ∃ key answer others,
         openai_api_key config = Some key
         ∧ openai_create (openai_model config) msgs = Some (answer :: others)
         ∧ query job_id payload trans w
           = (inr answer,
              match job_id_set job_id with
              | Some job => after_create trans job answer (after_call key msgs w)
              | None => after_call key msgs w
              end)).
Proof.
  cbv zeta.
  destruct (job_id_set job_id) as [job|] eqn:Hjob.
  - destruct (chat_manager_get (chat_store _ w) trans job) as [existing|] eqn:Hget.
    + left. exists job, existing. split; [reflexivity |]. split; [exact Hget |].
      unfold Chat.query, Chat.existing_message, bind, get_state.
      rewrite Hjob, Hget. destruct (messages existing); cbn; eauto.
    + right.
      assert (Hn : Chat.nothing_stored _ chat_manager_get job_id trans w)
        by (unfold Chat.nothing_stored; rewrite Hjob; exact Hget).
      pose proof (ChatSpec.existing_message_none _ _ _ _ _ Hn) as He.
      unfold Chat.query, bind. rewrite He. unfold _ensure_openai_configured.
      destruct openai_installed; cbn; [| left; eauto].
      destruct (openai_api_key config) as [key|]; cbn; [| left; eauto].
      right. unfold _call_openai, bind, modify_state.
      destruct (openai_create _ _) as [[|answer others]|]; cbn.
      * left. split; [exact Hn |]. eauto.
      * right. split; [exact Hn |]. exists key, answer, others.
        rewrite Hjob. auto.
      * left. split; [exact Hn |]. eauto.
  - right.
    assert (Hn : Chat.nothing_stored _ chat_manager_get job_id trans w)
      by (unfold Chat.nothing_stored; rewrite Hjob; exact I).
    pose proof (ChatSpec.existing_message_none _ _ _ _ _ Hn) as He.
    unfold Chat.query, bind. rewrite He. unfold _ensure_openai_configured.
    destruct openai_installed; cbn; [| left; eauto].
    destruct (openai_api_key config) as [key|]; cbn; [| left; eauto].
    right. unfold _call_openai, bind, modify_state.
    destruct (openai_create _ _) as [[|answer others]|]; cbn.
    + left. split; [exact Hn |]. eauto.
    + right. split; [exact Hn |]. exists key, answer, others.
      rewrite Hjob. auto.
    + left. split; [exact Hn |]. eauto.
Qed.

(** A stored first message is what [query] returns, whatever is asked. *)
Lemma query_stored job_id payload trans w job existing first rest :
  job_id_set job_id = Some job →
  chat_manager_get (chat_store _ w) trans job = Some existing →
  messages existing = first :: rest →
  query job_id payload trans w = (inr (message first), w).
Proof.
  intros Hjob Hget Hmsg.
  unfold Chat.query, Chat.existing_message, bind, get_state.
  rewrite Hjob, Hget, Hmsg. reflexivity.
Qed.

(** X9.  Let the chat manager hand back what it was given: after
    [create] for a job, [get] for that job finds an exchange whose first
    message is the created one.  Then an answer that [query] returned for
    a job id is what every later [query] for that job returns, whatever
    the new question, with no further request to OpenAI and no change of
    the world. *)
Theorem query_answer_is_cached
    (job_id : option Z) (job : Z) (payload payload' : ChatPayload) (trans : Trans)
    (w w' : World ChatStore) (answer : string) :
  (∀ st job answer, ∃ existing first rest,
     chat_manager_get (chat_manager_create st trans job answer) trans job = Some existing
     ∧ messages existing = first :: rest
     ∧ message first = answer) →
  job_id_set job_id = Some job →
  query job_id payload trans w = (inr answer, w') →
  query job_id payload' trans w' = (inr answer, w').
Proof.
  intros Hlaw Hjob Hq.
  destruct (query_cases job_id payload trans w)
    as [(j & existing & Hj & Hget & Hsnd & Hfst)
       |[(_ & _ & msg & E)|[(_ & key & e & _ & E)|(_ & key & a & others & _ & _ & E)]]];
    rewrite ?E in Hq; try discriminate.
  - rewrite Hq in Hsnd, Hfst. cbn in Hsnd, Hfst. subst w'.
    rewrite Hjob in Hj. injection Hj as <-.
    destruct (messages existing) as [|first rest] eqn:Hmsg.
    + destruct Hfst as [msg Hfst]. discriminate.
    + injection Hfst as ->. eapply query_stored; eauto.
  - rewrite Hjob in Hq. injection Hq as <- <-.
    destruct (Hlaw (chat_store _ (after_call key (_build_messages config payload trans) w))
                job a) as (existing & first & rest & Hget & Hmsg & <-).
    eapply query_stored; eauto.
Qed.

(** X10.  [query] changes the stored exchanges in one case only: no
    response was stored for the job id, OpenAI gave an answer, and that
    answer is created for the job and returned.  Without a job id, and
    whenever [query] raises, the store is as before.  At most one request
    goes to OpenAI, with the built messages, and the module's API key is
    left alone or set to the configured key. *)
Theorem query_store_changes_only_on_new_answer
    (job_id : option Z) (payload : ChatPayload) (trans : Trans) (w : World ChatStore) :
  let result := query job_id payload trans w in
  (chat_store _ (snd result) = chat_store _ w
   ∨ ∃ job answer,
       job_id_set job_id = Some job
       ∧ chat_manager_get (chat_store _ w) trans job = None
       ∧ fst result = inr answer
       ∧ chat_store _ (snd result)
         = chat_manager_create (chat_store _ w) trans job answer)
  ∧ (job_id_set job_id = None → chat_store _ (snd result) = chat_store _ w)
  ∧ (∀ e, fst result = inl e → chat_store _ (snd result) = chat_store _ w)
  ∧ (openai_calls _ (snd result) = openai_calls _ w
     ∨ openai_calls _ (snd result)
       = openai_calls _ w
         ++ [(openai_model config, _build_messages config payload trans)])
  ∧ (openai_module_api_key _ (snd result) = openai_module_api_key _ w
     ∨ openai_module_api_key _ (snd result) = openai_api_key config).
Proof.
  cbv zeta.
  destruct (query_cases job_id payload trans w)
    as [(j & existing & Hj & Hget & Hsnd & Hfst)
       |[(_ & _ & msg & E)|[(_ & key & e & Hkey & E)
                           |(Hn & key & a & others & Hkey & _ & E)]]].
  - rewrite Hsnd. repeat split; auto.
  - rewrite E. cbn. repeat split; auto.
  - rewrite E. cbn. rewrite Hkey. repeat split; auto.
  - rewrite E. cbn. unfold Chat.nothing_stored in Hn.
    destruct (job_id_set job_id) as [job|] eqn:Hjob; cbn; rewrite Hkey.
    + split; [right; exists job, a; auto |]. split; [discriminate |].
      split; [discriminate | auto].
    + repeat split; auto; discriminate.
Qed.

End Query.

(** Witness of X9: job 6 has no stored response; the answer OpenAI gives
    to the first question is the answer to the second. *)
Lemma query_answer_is_cached_witness :
  ∃ w', query _ store_get store_create true canned_openai configured
          (Some 6) ask trans_alice world0
        = (inr "Check the tool parameters.", w')
        ∧ query _ store_get store_create true canned_openai configured
            (Some 6) {| payload_query := "And now?" |} trans_alice w'
          = (inr "Check the tool parameters.", w').
Proof.
  exists (snd (query _ store_get store_create true canned_openai configured
                 (Some 6) ask trans_alice world0)).
  split; [reflexivity |].
  apply (query_answer_is_cached _ store_get store_create true canned_openai configured
           (Some 6) 6 ask {| payload_query := "And now?" |} trans_alice world0 _
           "Check the tool parameters.").
  - intros st job answer. unfold store_get, store_create.
    eexists. eexists. eexists. split; [apply lookup_insert_eq |]. split; reflexivity.
  - reflexivity.
  - reflexivity.
Defined.

End ChatMoreSpec.

Module MigrationMoreSpec.
Import Migration MigrationSpec.

(** The rows after a [downgrade] that goes through: the table
    [user_quota_source_usage] is gone with its rows, and the rows of
    [quota] have lost their value of the dropped column. *)
Lemma downgrade_data db db' :
  downgrade db = (inr tt, db') →
  data db'
  = alter (fmap (delete "quota_source_label")) "quota"
      (delete "user_quota_source_usage" (data db)).
Proof.
  unfold downgrade. intros H.
  apply bind_inr in H as ([] & d1 & H1 & H).
  apply bind_inr in H as ([] & d2 & H2 & H).
  apply bind_inr in H as ([] & d3 & H3 & H).
  apply bind_inr in H as ([] & d4 & H4 & H5).
  apply drop_index_inr in H1 as (_ & ->).
  apply create_index_inr in H2 as (_ & _ & _ & ->).
  apply drop_unique_constraint_inr in H3 as (t & _ & _ & ->).
  apply drop_table_inr in H4 as (_ & ->).
  apply drop_column_inr in H5 as (t' & _ & _ & ->).
  reflexivity.
Qed.

Lemma create_unique_index_fails name table cols db t :
  tables (schema db) !! table = Some t →
  indexes (schema db) !! name = None →
  ¬ unique_in cols (rows_of table db) →
  create_index name table cols true db
  = (inl (IntegrityError "could not create unique index"), db).
Proof.
  intros Ht Hn Hu. unfold create_index, bind, get_state. rewrite Ht, Hn.
  rewrite bool_decide_eq_false_2 by exact Hu. reflexivity.
Qed.

(** X11.  Right after an [upgrade] that went through, [downgrade] gives the
    database back as it was, schema and rows, provided the database was in
    order before: the index [ix_default_quota_association_type] was the
    unique index on [type] and the rows respected it, every index was on a
    table of the schema, and no rows were kept for the table or the column
    that did not exist yet.  The upgrade itself leaves all rows in place
    and starts the new table empty. *)
Theorem upgrade_then_downgrade_is_identity (db0 db1 : Database) :
  upgrade db0 = (inr tt, db1) →
  indexes (schema db0) !! "ix_default_quota_association_type"
    = Some {| ix_table := "default_quota_association"; ix_columns := ["type"];
              ix_unique := true |} →
  indexes_on_tables (schema db0) →
  unique_in ["type"] (rows_of "default_quota_association" db0) →
  data db0 !! "user_quota_source_usage" = None →
  (∀ rows i r, data db0 !! "quota" = Some rows → rows !! i = Some r →
               r !! "quota_source_label" = None) →
  data db1 = <["user_quota_source_usage" := ∅]> (data db0)
  ∧ downgrade db1 = (inr tt, db0).
Proof.
  intros Hup Hdef Hwf Huq Hnodata Hnocol.
  destruct (upgrade_inr _ _ Hup)
    as (quota & ix & Hq & Hcol & Hnone & Hu & Hl & Hqx & Hix & Hixt & Hs & Hd).
  split; [exact Hd |].
  assert (Hres : restorable (schema db0) quota) by (repeat split; assumption).
  assert (Hgo : fst (downgrade db1) = inr tt).
  { eapply downgrade_succeeds; [exact Hres | exact Hs |].
    unfold rows_of. rewrite Hd, lookup_insert_ne by discriminate. exact Huq. }
  destruct (downgrade db1) as [[e|[]] db'] eqn:E; [discriminate |].
  f_equal.
  pose proof (downgrade_inr _ _ _ _ Hres Hs E) as Hschema.
  pose proof (downgrade_data _ _ E) as Hdata.
  destruct db' as [s' d'], db0 as [s0 d0]. cbn in *. subst s'. f_equal.
  rewrite Hdata, Hd, delete_insert_eq, (delete_id _ _ Hnodata).
  apply alter_id. intros rows Hrows.
  apply map_eq. intros i. rewrite lookup_fmap.
  destruct (rows !! i) as [r|] eqn:Hr; [| reflexivity]. cbn. f_equal.
  apply delete_id. eapply Hnocol; eauto.
Qed.

(** X12.  In every state reached after the upgrade, [downgrade] goes
    through exactly when the rows of [default_quota_association] still
    admit the unique index on [type] that the upgrade dropped.  When two
    rows have the same type, it raises, with every table and every row
    still in place. *)
Theorem downgrade_goes_through_iff_types_unique (db0 db1 db : Database) :
  upgrade db0 = (inr tt, db1) →
  indexes (schema db0) !! "ix_default_quota_association_type"
    = Some {| ix_table := "default_quota_association"; ix_columns := ["type"];
              ix_unique := true |} →
  indexes_on_tables (schema db0) →
  rtc step db1 db →
  (fst (downgrade db) = inr tt
   ↔ unique_in ["type"] (rows_of "default_quota_association" db))
  ∧ (¬ unique_in ["type"] (rows_of "default_quota_association" db) →
     ∃ e db', downgrade db = (inl e, db')
              ∧ tables (schema db') = tables (schema db)
              ∧ data db' = data db).
Proof.
  intros Hup Hdef Hwf Hreach.
  destruct (upgrade_inr _ _ Hup)
    as (quota & ix & Hq & Hcol & Hnone & Hu & Hl & Hqx & Hix & Hixt & Hs & Hd).
  assert (Hres : restorable (schema db0) quota) by (repeat split; assumption).
  assert (Hsdb : schema db = upgraded_schema (schema db0) quota).
  { rewrite <- Hs. clear -Hreach.
    induction Hreach as [|x y z Hstep _ IH]; [reflexivity |].
    rewrite IH. apply (step_schema _ _ Hstep). }
  assert (Hfail : ¬ unique_in ["type"] (rows_of "default_quota_association" db) →
     ∃ e db', downgrade db = (inl e, db')
              ∧ tables (schema db') = tables (schema db)
              ∧ data db' = data db).
  { intros Hdup.
    destruct (Hwf _ _ Hdef) as [tdqa Htd]. cbn in Htd.
    destruct db as [sch dat]. cbn in Hsdb. subst sch.
    exists (IntegrityError "could not create unique index").
    exists (set_indexes (delete "ix_quota_quota_source_label")
              {| schema := upgraded_schema (schema db0) quota; data := dat |}).
    split; [| split; reflexivity].
    unfold downgrade.
    erewrite bind_ok; cycle 1.
    { eapply drop_index_ok; cbn; [lookup_names; reflexivity | reflexivity]. }
    unfold bind.
    erewrite create_unique_index_fails; [reflexivity | | | exact Hdup].
    - cbn. lookup_names. exact Htd.
    - cbn. lookup_names. reflexivity. }
  split; [| exact Hfail]. split.
  - intros Hok.
    destruct (decide (unique_in ["type"] (rows_of "default_quota_association" db)))
      as [Hyes|Hno]; [exact Hyes |].
    destruct (Hfail Hno) as (e & db' & E & _). rewrite E in Hok. discriminate.
  - intros Huq. eapply downgrade_succeeds; eauto.
Qed.

(** Witness of X11: the migration forth and back on [database0]. *)
Lemma upgrade_then_downgrade_is_identity_witness :
  downgrade (snd (upgrade database0)) = (inr tt, database0).
Proof.
  apply (upgrade_then_downgrade_is_identity database0 (snd (upgrade database0)) eq_refl
           eq_refl).
  - intros name ix Hix. unfold database0, schema0 in Hix. cbn in Hix.
    apply lookup_insert_Some in Hix as [[_ <-]|[_ Hix]].
    + eexists. reflexivity.
    + rewrite lookup_empty in Hix. discriminate.
  - intros i j ri rj Hi.
    assert (E : rows_of "default_quota_association" database0 = ∅) by reflexivity.
    rewrite E, lookup_empty in Hi. discriminate.
  - reflexivity.
  - intros rows i r Hrows Hr.
    assert (E : data database0 !! "quota" = Some ∅) by reflexivity.
    rewrite E in Hrows. injection Hrows as <-.
    rewrite lookup_empty in Hr. discriminate.
Defined.

(** Witness of X12: after the upgrade two default quota associations of the
    same type are inserted; [downgrade] then fails. *)
Lemma downgrade_goes_through_iff_types_unique_witness :
  fst (downgrade (with_duplicate_types (snd (upgrade database0)))) ≠ inr tt.
Proof.
  assert (Hwf : indexes_on_tables (schema database0)).
  { intros name ix Hix. unfold database0, schema0 in Hix. cbn in Hix.
    apply lookup_insert_Some in Hix as [[_ <-]|[_ Hix]].
    - eexists. reflexivity.
    - rewrite lookup_empty in Hix. discriminate. }
  assert (Hreach : rtc step (snd (upgrade database0))
                     (with_duplicate_types (snd (upgrade database0)))).
  { eapply rtc_l.
    { apply (step_insert (snd (upgrade database0)) "default_quota_association" ∅ 1
               registered_row).
      - reflexivity.
      - reflexivity.
      - intros cols Hcols. intros i r Hr. rewrite lookup_empty in Hr. discriminate. }
    eapply rtc_l.
    { apply (step_insert _ "default_quota_association" (<[1 := registered_row]> ∅) 2
               registered_row).
      - reflexivity.
      - reflexivity.
      - intros cols Hcols. vm_compute in Hcols.
        apply list_elem_of_In in Hcols. destruct Hcols. }
    match goal with
    | |- rtc _ ?a ?b => replace b with a by (vm_compute; reflexivity)
    end.
    apply rtc_refl. }
  destruct (downgrade_goes_through_iff_types_unique database0 (snd (upgrade database0))
              (with_duplicate_types (snd (upgrade database0))) eq_refl eq_refl Hwf Hreach)
    as [Hiff _].
  intros Hok. apply Hiff in Hok.
  specialize (Hok 1 2 registered_row registered_row eq_refl eq_refl).
  assert (Hne : (1 : Z) ≠ 2) by discriminate.
  specialize (Hok Hne). vm_compute in Hok. discriminate Hok.
Defined.

End MigrationMoreSpec.
